(** * Media Library browser: the presentation layer, embedded and verified

    The development follows the two components of the browser:

    - [MediaCard] (src/components/MediaCard.jsx): duration and file-size
      formatting, thumbnail selection, hover-driven frame cycling and the
      click handler;
    - [App] (the application shell): loading of the index document,
      filtering by type and by search text, grouping by day, ordering of the
      groups and the header statistics.

    JavaScript values are embedded as follows.  Strings are [string], the
    UTF-8 encoding of the text; integral numbers are [Z]; numbers that may
    carry a fraction (durations) are [Q]; a field that may be [null] or absent is a [nullable]; arrays are
    lists; an object used as a dictionary is an association list kept in
    property-creation order.  Host functions whose tables are not part of the
    program (Unicode case mapping, the host's legacy date grammar) are the
    fields of the class [Host]; the other host functions used by the
    components ([padStart], [includes], [trim], [split], [toISOString],
    [Date.parse] of ISO dates, [sort], property enumeration) are written
    out. *)

From Stdlib Require Import ZArith QArith Qround List String Ascii Bool Lia.
From Stdlib Require Import Sorted Permutation DecimalString DecimalZ.
Import ListNotations.

Open Scope string_scope.
Open Scope Z_scope.

(* ================================================================== *)
(** * Part I: definitions *)
(* ================================================================== *)

(** ** Values of the host language *)

Module JS.

(** A property that holds a value, [null], or is absent. *)
Inductive nullable (A : Type) : Type :=
| JNull
| JUndefined
| JVal (a : A).
Arguments JNull {A}.
Arguments JUndefined {A}.
Arguments JVal {A} a.

(** Host functions that depend on tables outside the program. *)
Class Host : Type := {
  (** [String.prototype.toLowerCase] *)
  toLowerCase : string -> string;
  (** [Date.parse] on a string that is not in one of the ISO forms
      recognised by [Date_parse_iso] below; [None] is [NaN]. *)
  Date_parse_legacy : string -> option Z
}.

(** *** Numbers *)

(** [Number::toString] of an integral number below [10^21] in magnitude. *)
Definition Number_toString (z : Z) : string :=
  NilZero.string_of_int (Z.to_int z).

(** The decimal digit of [d], for [0 <= d < 10]. *)
Definition digit (d : Z) : ascii := ascii_of_nat (48 + Z.to_nat d).

(** [Number::toString] of the number [n / 100], for [0 <= n]: the fraction
    is printed without trailing zeros, and not at all when it is zero. *)
Definition Number_toString_hundredths (n : Z) : string :=
  let r := n mod 100 in
  Number_toString (n / 100) ++
  (if r =? 0 then ""
   else if r mod 10 =? 0 then String "." (String (digit (r / 10)) "")
   else String "." (String (digit (r / 10)) (String (digit (r mod 10)) ""))).

(** [Math.round]: the nearest integer, ties towards [+Infinity]. *)
Definition Math_round (x : Q) : Z := Qfloor (x + (1 # 2)).

(** Truncation towards zero. *)
Definition Qtrunc (x : Q) : Z :=
  if Qle_bool 0 x then Qfloor x else Qceiling x.

(** The [%] operator: the remainder has the sign of the dividend. *)
Definition rem (a b : Q) : Q := a - b * inject_Z (Qtrunc (a / b)).

(** [Math.floor(Math.log(x) / Math.log(k))] for [x >= 1] and [k] a power of
    two, with exact logarithms.  For [k = 1024] the quotient of the two
    logarithms in double precision has this integral part for every [x]
    up to [1024^4]; just below [1024^5] it is rounded up to [5]. *)
Definition floor_log_ratio (x k : Z) : Z := Z.log2 x / Z.log2 k.

(** *** Strings *)

(** [n] copies of [pad]. *)
Fixpoint repeat_string (n : nat) (pad : string) : string :=
  match n with
  | O => ""
  | S n' => pad ++ repeat_string n' pad
  end.

(** [s.padStart(targetLength, padString)] *)
Definition padStart (s : string) (targetLength : nat) (padString : string)
  : string :=
  let len := String.length s in
  if (targetLength <=? len)%nat then s
  else if (String.length padString =? 0)%nat then s
  else
    let fillLen := (targetLength - len)%nat in
    substring 0 fillLen (repeat_string fillLen padString) ++ s.

(** [s.includes(q)] *)
Fixpoint includes (s q : string) : bool :=
  prefix q s ||
  match s with
  | EmptyString => false
  | String _ s' => includes s' q
  end.

(** The characters removed by [trim] are the white space and the line
    terminators of the language: U+0009 to U+000D, U+0020, U+00A0, U+1680,
    U+2000 to U+200A, U+2028, U+2029, U+202F, U+205F, U+3000 and U+FEFF.  In
    UTF-8 they take one, two or three bytes. *)

Definition byte_is (c : ascii) (n : nat) : bool := (nat_of_ascii c =? n)%nat.

(** U+0009 to U+000D and U+0020. *)
Definition is_white_space (c : ascii) : bool :=
  let n := nat_of_ascii c in
  ((9 <=? n) && (n <=? 13) || (n =? 32))%nat.

(** U+00A0. *)
Definition is_white_space2 (c1 c2 : ascii) : bool :=
  byte_is c1 194 && byte_is c2 160.

(** U+1680; U+2000 to U+200A, U+2028, U+2029 and U+202F; U+205F; U+3000;
    U+FEFF. *)
Definition is_white_space3 (c1 c2 c3 : ascii) : bool :=
  let n3 := nat_of_ascii c3 in
  byte_is c1 225 && byte_is c2 154 && byte_is c3 128
  || byte_is c1 226 && byte_is c2 128
     && ((128 <=? n3) && (n3 <=? 138) || (n3 =? 168) || (n3 =? 169)
         || (n3 =? 175))%nat
  || byte_is c1 226 && byte_is c2 129 && byte_is c3 159
  || byte_is c1 227 && byte_is c2 128 && byte_is c3 128
  || byte_is c1 239 && byte_is c2 187 && byte_is c3 191.

(** The text after one leading white space character, if there is one. *)
Definition skip_white_space (s : string) : option string :=
  match s with
  | String c1 r1 =>
      if is_white_space c1 then Some r1
      else
        match r1 with
        | String c2 r2 =>
            if is_white_space2 c1 c2 then Some r2
            else
              match r2 with
              | String c3 r3 =>
                  if is_white_space3 c1 c2 c3 then Some r3 else None
              | EmptyString => None
              end
        | EmptyString => None
        end
  | EmptyString => None
  end.

(** At most [fuel] white space characters removed from the start. *)
Fixpoint skip_white_spaces (fuel : nat) (s : string) : string :=
  match fuel with
  | O => s
  | S fuel' =>
      match skip_white_space s with
      | Some rest => skip_white_spaces fuel' rest
      | None => s
      end
  end.

(** [s.trimStart()]: every skipped character has at least one byte. *)
Definition trimStart (s : string) : string :=
  skip_white_spaces (String.length s) s.

(** The text consists of white space only. *)
Definition all_white_space (s : string) : bool :=
  match trimStart s with
  | EmptyString => true
  | String _ _ => false
  end.

(** [s.trimEnd()]: the text up to its longest suffix of white space. *)
Fixpoint trimEnd (s : string) : string :=
  match s with
  | EmptyString => EmptyString
  | String c s' =>
      if all_white_space s then EmptyString else String c (trimEnd s')
  end.

(** [s.trim()] *)
Definition trim (s : string) : string := trimEnd (trimStart s).

End JS.
Export JS.

(** ** The index document *)

Module Model.

Record Resolution : Type := { width : Z; height : Z }.

(** The JSON value found in [metadata.creationDate]. *)
Inductive DateValue : Type :=
| DateString (s : string)
| DateNumber (n : Z).

Record FileMetadata : Type := {
  creationDate : nullable DateValue;
  resolution : nullable Resolution;
  duration : nullable Q;
  fileSize : Z
}.

Record Thumbnails : Type := {
  main : nullable string;
  frames : list string
}.

Record GoogleDrive : Type := { url : nullable string }.

Record MediaRecord : Type := {
  id : string;
  type : string;
  fileName : string;
  relativePath : string;
  metadata : FileMetadata;
  thumbnails : Thumbnails;
  googleDrive : nullable GoogleDrive
}.

Record Stats : Type := { images : Z; videos : Z; audio : Z }.

Record DocMetadata : Type := {
  generatedAt : nullable string;
  sourceVolume : nullable string;
  stats : nullable Stats
}.

Record IndexDocument : Type := {
  doc_metadata : nullable DocMetadata;
  files : list MediaRecord
}.

End Model.
Export Model.

(** ** MediaCard *)

Module MediaCard.

(** *** formatDuration

    The arithmetic is exact.  The code divides in double precision; below
    [2^53] seconds the integral parts it takes are those of the exact
    quotients, and the statements about the fields stay below that bound. *)

Definition formatDuration (seconds : nullable Q) : string :=
  match seconds with
  | JNull | JUndefined => ""
  | JVal s =>
      if Qeq_bool s 0 then ""
      else
        let hours := Qfloor (s / 3600) in
        let minutes := Qfloor (rem s 3600 / 60) in
        let secs := Qfloor (rem s 60) in
        if 0 <? hours then
          Number_toString hours ++ ":" ++
          padStart (Number_toString minutes) 2 "0" ++ ":" ++
          padStart (Number_toString secs) 2 "0"
        else
          Number_toString minutes ++ ":" ++
          padStart (Number_toString secs) 2 "0"
  end.

(** *** formatFileSize *)

Definition k : Z := 1024.
Definition sizes : list string := ["B"; "KB"; "MB"; "GB"].

(** The index [i] computed for a positive size. *)
Definition unit_index (bytes : Z) : Z := floor_log_ratio bytes k.

(** [sizes[i]], converted to a string by the concatenation. *)
Definition unit_name (i : Z) : string :=
  match nth_error sizes (Z.to_nat i) with
  | Some u => u
  | None => "undefined"
  end.

(** A negative size has no logarithm: every intermediate result is [NaN]. *)
Definition formatFileSize (bytes : Z) : string :=
  if bytes =? 0 then "0 B"
  else if bytes <? 0 then "NaN undefined"
  else
    let i := unit_index bytes in
    Number_toString_hundredths
      (Math_round (inject_Z bytes / inject_Z (k ^ i) * 100))
    ++ " " ++ unit_name i.

(** *** Thumbnail selection and rendering *)

Definition is_video_with_frames (file : MediaRecord) : bool :=
  (type file =? "video")%string &&
  (0 <? List.length (frames (thumbnails file)))%nat.

(** [frames[currentFrame]]: absent when the index is out of range. *)
Definition thumbnail (file : MediaRecord) (currentFrame : nat)
  : nullable string :=
  if is_video_with_frames file then
    match nth_error (frames (thumbnails file)) currentFrame with
    | Some p => JVal p
    | None => JUndefined
    end
  else main (thumbnails file).

Inductive Icon : Type := VideoIcon | AudioIcon | ImageIcon.

(** [getTypeIcon]: [None] is the [null] of the default branch. *)
Definition getTypeIcon (file : MediaRecord) : option Icon :=
  if (type file =? "video")%string then Some VideoIcon
  else if (type file =? "audio")%string then Some AudioIcon
  else if (type file =? "image")%string then Some ImageIcon
  else None.

(** What the thumbnail area contains. *)
Inductive ThumbnailArea : Type :=
| Img (src alt : string)
| NoThumbnail (icon : option Icon).

Definition render_thumbnail (file : MediaRecord) (currentFrame : nat)
  : ThumbnailArea :=
  match thumbnail file currentFrame with
  | JVal p =>
      if (p =? "")%string then NoThumbnail (getTypeIcon file)
      else Img ("/" ++ p) (fileName file)
  | _ => NoThumbnail (getTypeIcon file)
  end.

(** *** Click *)

Definition hasDriveUrl (file : MediaRecord) : bool :=
  match googleDrive file with
  | JVal g =>
      match url g with
      | JVal u => negb (u =? "")%string && negb (trim u =? "")%string
      | _ => false
      end
  | _ => false
  end.

Inductive Effect : Type :=
| WindowOpen (target_url context features : string).

(** The URL handed to [window.open]; only read when [hasDriveUrl]. *)
Definition drive_url (file : MediaRecord) : string :=
  match googleDrive file with
  | JVal g => match url g with JVal u => u | _ => "" end
  | _ => ""
  end.

Definition handleClick (file : MediaRecord) : list Effect :=
  if hasDriveUrl file
  then [WindowOpen (drive_url file) "_blank" "noopener,noreferrer"]
  else [].

(** *** Hover-driven frame cycling

    The component state, the interval handle kept in [intervalRef] and
    the intervals of this card that the host still runs.  Interval
    handles are positive numbers.  A state is what the card holds between
    two events, once the effect of the last render has run: an event runs
    its handler, the render it causes and, when a dependency changed, the
    previous cleanup followed by the effect.  The renders committed before
    their effect has run are followed in [Render] below. *)

Record State : Type := {
  currentFrame : nat;
  isHovering : bool;
  intervalRef : option positive;
  timers : list positive
}.

Definition clearInterval (h : positive) (ts : list positive)
  : list positive :=
  filter (fun t => negb (Pos.eqb t h)) ts.

(** The function returned by the effect. *)
Definition cleanup (st : State) : State :=
  match intervalRef st with
  | Some h =>
      {| currentFrame := currentFrame st;
         isHovering := isHovering st;
         intervalRef := intervalRef st;
         timers := clearInterval h (timers st) |}
  | None => st
  end.

(** The body of the effect; [fresh] is the handle [setInterval] returns
    when it is called. *)
Definition effect (file : MediaRecord) (fresh : positive) (st : State)
  : State :=
  if isHovering st && is_video_with_frames file then
    {| currentFrame := currentFrame st;
       isHovering := isHovering st;
       intervalRef := Some fresh;
       timers := fresh :: timers st |}
  else
    let st1 := cleanup st in
    {| currentFrame := 0;
       isHovering := isHovering st1;
       intervalRef := intervalRef st1;
       timers := timers st1 |}.

(** The state after the first render and its effect. *)
Definition mount (file : MediaRecord) (fresh : positive) : State :=
  effect file fresh
    {| currentFrame := 0; isHovering := false;
       intervalRef := None; timers := [] |}.

Inductive Event : Type :=
| MouseEnter (fresh : positive)
| MouseLeave
| Tick (handle : positive).

(** [setIsHovering(b)]: a change of [isHovering] re-renders the card, and
    the changed dependency runs the previous cleanup and then the effect. *)
Definition setIsHovering (file : MediaRecord) (fresh : positive)
  (b : bool) (st : State) : State :=
  if Bool.eqb (isHovering st) b then st
  else
    effect file fresh
      (cleanup {| currentFrame := currentFrame st;
                  isHovering := b;
                  intervalRef := intervalRef st;
                  timers := timers st |}).

(** The interval callback: [setCurrentFrame(prev => (prev + 1) % length)]. *)
Definition tick (file : MediaRecord) (st : State) : State :=
  {| currentFrame :=
       (currentFrame st + 1) mod List.length (frames (thumbnails file));
     isHovering := isHovering st;
     intervalRef := intervalRef st;
     timers := timers st |}.

(** One event; a [Tick] is only possible for an interval still running. *)
Definition dispatch (file : MediaRecord) (st : State) (e : Event)
  : option State :=
  match e with
  | MouseEnter fresh => Some (setIsHovering file fresh true st)
  | MouseLeave => Some (setIsHovering file 1%positive false st)
  | Tick h =>
      if existsb (Pos.eqb h) (timers st) then Some (tick file st)
      else None
  end.

Fixpoint run (file : MediaRecord) (st : State) (es : list Event)
  : option State :=
  match es with
  | [] => Some st
  | e :: es' =>
      match dispatch file st e with
      | Some st' => run file st' es'
      | None => None
      end
  end.

(** States the card can be in. *)
Inductive reachable (file : MediaRecord) : State -> Prop :=
| reachable_mount fresh : reachable file (mount file fresh)
| reachable_step st e st' :
    reachable file st -> dispatch file st e = Some st' ->
    reachable file st'.

End MediaCard.

(** ** Dates of the host language

    Time values are milliseconds since the epoch, in UTC; an invalid date
    ([NaN]) is [None].  The day arithmetic is that of the language
    definition (Day, DayFromYear, YearFromTime, MonthFromTime, DateFromTime,
    MakeDay, TimeClip). *)

Module JSDate.

Definition msPerDay : Z := 86400000.
Definition maxTime : Z := 8640000000000000.

Definition TimeClip (t : Z) : option Z :=
  if Z.abs t <=? maxTime then Some t else None.

Definition Day (t : Z) : Z := t / msPerDay.

Definition DayFromYear (y : Z) : Z :=
  365 * (y - 1970) + (y - 1969) / 4 - (y - 1901) / 100 + (y - 1601) / 400.

Definition InLeapYear (y : Z) : bool :=
  (y mod 4 =? 0) && (negb (y mod 100 =? 0) || (y mod 400 =? 0)).

Definition leap_day (y : Z) : Z := if InLeapYear y then 1 else 0.

(** The year that contains day [d]: the estimate from the mean length of
    a year is off by at most one. *)
Definition YearFromDay (d : Z) : Z :=
  let y0 := 1970 + (400 * d) / 146097 in
  if d <? DayFromYear y0 then y0 - 1
  else if DayFromYear (y0 + 1) <=? d then y0 + 1
  else y0.

Definition DayWithinYear (d : Z) : Z := d - DayFromYear (YearFromDay d).

(** Days of the year before month [m] (January is [0]). *)
Definition month_start (m leap : Z) : Z :=
  if m <=? 0 then 0
  else if m =? 1 then 31
  else if m =? 2 then 59 + leap
  else if m =? 3 then 90 + leap
  else if m =? 4 then 120 + leap
  else if m =? 5 then 151 + leap
  else if m =? 6 then 181 + leap
  else if m =? 7 then 212 + leap
  else if m =? 8 then 243 + leap
  else if m =? 9 then 273 + leap
  else if m =? 10 then 304 + leap
  else if m =? 11 then 334 + leap
  else 365 + leap.

Definition MonthFromDay (d : Z) : Z :=
  let w := DayWithinYear d in
  let leap := leap_day (YearFromDay d) in
  if w <? 31 then 0
  else if w <? 59 + leap then 1
  else if w <? 90 + leap then 2
  else if w <? 120 + leap then 3
  else if w <? 151 + leap then 4
  else if w <? 181 + leap then 5
  else if w <? 212 + leap then 6
  else if w <? 243 + leap then 7
  else if w <? 273 + leap then 8
  else if w <? 304 + leap then 9
  else if w <? 334 + leap then 10
  else 11.

Definition DateFromDay (d : Z) : Z :=
  DayWithinYear d
  - month_start (MonthFromDay d) (leap_day (YearFromDay d)) + 1.

Definition MakeDay (year month date : Z) : Z :=
  DayFromYear year + month_start month (leap_day year) + date - 1.

Definition YearFromTime (t : Z) : Z := YearFromDay (Day t).
Definition MonthFromTime (t : Z) : Z := MonthFromDay (Day t).
Definition DateFromTime (t : Z) : Z := DateFromDay (Day t).
Definition HourFromTime (t : Z) : Z := (t / 3600000) mod 24.
Definition MinFromTime (t : Z) : Z := (t / 60000) mod 60.
Definition SecFromTime (t : Z) : Z := (t / 1000) mod 60.
Definition msFromTime (t : Z) : Z := t mod 1000.

(** *** Printing *)

(** The last [w] decimal digits of [n], most significant first. *)
Fixpoint fixed_digits (w : nat) (n : Z) : string :=
  match w with
  | O => ""
  | S w' => String (digit ((n / 10 ^ Z.of_nat w') mod 10)) (fixed_digits w' n)
  end.

(** Four digits for the years 0 to 9999, a sign and six digits otherwise. *)
Definition year_string (y : Z) : string :=
  if (0 <=? y) && (y <=? 9999) then fixed_digits 4 y
  else String (if 0 <=? y then "+"%char else "-"%char)
              (fixed_digits 6 (Z.abs y)).

(** [YYYY-MM-DD] *)
Definition date_string (d : Z) : string :=
  year_string (YearFromDay d) ++ "-" ++
  fixed_digits 2 (MonthFromDay d + 1) ++ "-" ++
  fixed_digits 2 (DateFromDay d).

(** [Date.prototype.toISOString] of a valid date. *)
Definition toISOString (t : Z) : string :=
  date_string (Day t) ++ "T" ++
  fixed_digits 2 (HourFromTime t) ++ ":" ++
  fixed_digits 2 (MinFromTime t) ++ ":" ++
  fixed_digits 2 (SecFromTime t) ++ "." ++
  fixed_digits 3 (msFromTime t) ++ "Z".

(** [s.split(sep)] for a separator of one character. *)
Fixpoint split (sep : ascii) (s : string) : list string :=
  match s with
  | EmptyString => [EmptyString]
  | String c s' =>
      if Ascii.eqb c sep then EmptyString :: split sep s'
      else
        match split sep s' with
        | h :: t => String c h :: t
        | [] => [String c EmptyString]
        end
  end.

(** *** Parsing *)

Definition digit_value (c : ascii) : option Z :=
  let n := nat_of_ascii c in
  if ((48 <=? n) && (n <=? 57))%nat then Some (Z.of_nat n - 48) else None.

(** Exactly [w] digits, read into [acc]. *)
Fixpoint take_digits (w : nat) (acc : Z) (s : string)
  : option (Z * string) :=
  match w with
  | O => Some (acc, s)
  | S w' =>
      match s with
      | String c s' =>
          match digit_value c with
          | Some d => take_digits w' (acc * 10 + d) s'
          | None => None
          end
      | EmptyString => None
      end
  end.

Definition expect (c : ascii) (s : string) : option string :=
  match s with
  | String c' s' => if Ascii.eqb c c' then Some s' else None
  | EmptyString => None
  end.

(** A four-digit year, or a signed six-digit one; [-000000] is not a
    year. *)
Definition parse_year (s : string) : option (Z * string) :=
  match s with
  | String "+" s' => take_digits 6 0 s'
  | String "-" s' =>
      match take_digits 6 0 s' with
      | Some (y, r) => if y =? 0 then None else Some (- y, r)
      | None => None
      end
  | _ => take_digits 4 0 s
  end.

Definition days_in_month (m leap : Z) : Z :=
  month_start (m + 1) leap - month_start m leap.

(** [THH:mm:ss] or [THH:mm:ss.sss], followed by the UTC designator. *)
Definition parse_time_utc (s : string) : option Z :=
  match expect "T" s with
  | None => None
  | Some r =>
  match take_digits 2 0 r with
  | None => None
  | Some (hh, r) =>
  match expect ":" r with
  | None => None
  | Some r =>
  match take_digits 2 0 r with
  | None => None
  | Some (mm, r) =>
  match expect ":" r with
  | None => None
  | Some r =>
  match take_digits 2 0 r with
  | None => None
  | Some (ss, r) =>
      let ms_rest :=
        match expect "." r with
        | Some r' => take_digits 3 0 r'
        | None => Some (0, r)
        end in
      match ms_rest with
      | Some (ms, "Z") =>
          if (hh <=? 23) && (mm <=? 59) && (ss <=? 59)
          then Some (hh * 3600000 + mm * 60000 + ss * 1000 + ms)
          else None
      | _ => None
      end
  end end end end end end.

(** The ISO forms with a fixed meaning in every host: a date alone (UTC
    midnight) and a date with a UTC time.  [None] means that the string
    is not in one of these forms. *)
Definition Date_parse_iso (s : string) : option Z :=
  match parse_year s with
  | None => None
  | Some (y, r) =>
  match expect "-" r with
  | None => None
  | Some r =>
  match take_digits 2 0 r with
  | None => None
  | Some (m, r) =>
  match expect "-" r with
  | None => None
  | Some r =>
  match take_digits 2 0 r with
  | None => None
  | Some (d, r) =>
      if (1 <=? m) && (m <=? 12) && (1 <=? d)
         && (d <=? days_in_month (m - 1) (leap_day y))
      then
        let day := MakeDay y (m - 1) d in
        match r with
        | EmptyString => Some (day * msPerDay)
        | _ =>
            match parse_time_utc r with
            | Some ms => Some (day * msPerDay + ms)
            | None => None
            end
        end
      else None
  end end end end end.

Section WithHost.
Context `{Host}.

(** [Date.parse] *)
Definition Date_parse (s : string) : option Z :=
  match Date_parse_iso s with
  | Some t => TimeClip t
  | None =>
      match Date_parse_legacy s with
      | Some t => TimeClip t
      | None => None
      end
  end.

(** [new Date(v).getTime()]: [null] converts to [0], a missing value to
    [NaN]. *)
Definition new_Date (v : nullable DateValue) : option Z :=
  match v with
  | JVal (DateString s) => Date_parse s
  | JVal (DateNumber n) => TimeClip n
  | JNull => Some 0
  | JUndefined => None
  end.

End WithHost.

End JSDate.

Export JSDate.

(** ** App *)

Module App.

(** *** Objects used as dictionaries

    The entries are kept in the order the properties were created.
    Enumeration lists the properties whose name is an array index first,
    by increasing index, and then the others in creation order. *)

Definition Obj (V : Type) : Type := list (string * V).

Fixpoint get {V} (o : Obj V) (key : string) : option V :=
  match o with
  | [] => None
  | (k', v) :: o' => if (k' =? key)%string then Some v else get o' key
  end.

(** [o[key] = v]: an existing property keeps its place. *)
Fixpoint set {V} (o : Obj V) (key : string) (v : V) : Obj V :=
  match o with
  | [] => [(key, v)]
  | (k', v') :: o' =>
      if (k' =? key)%string then (k', v) :: o'
      else (k', v') :: set o' key v
  end.

(** All characters are digits; the value read so far is [acc]. *)
Fixpoint read_digits (acc : Z) (s : string) : option Z :=
  match s with
  | EmptyString => Some acc
  | String c s' =>
      match digit_value c with
      | Some d => read_digits (acc * 10 + d) s'
      | None => None
      end
  end.

(** The array index a property name denotes, if any: a canonical decimal
    numeral below [2^32 - 1]. *)
Definition array_index (key : string) : option Z :=
  match key with
  | EmptyString => None
  | _ =>
      match read_digits 0 key with
      | Some n =>
          if (Number_toString n =? key)%string && (n <? 2 ^ 32 - 1)
          then Some n else None
      | None => None
      end
  end.

Definition is_array_index (key : string) : bool :=
  match array_index key with Some _ => true | None => false end.

Definition index_of {V} (e : string * V) : Z :=
  match array_index (fst e) with Some n => n | None => 0 end.

Fixpoint insert_by_index {V} (e : string * V) (l : Obj V) : Obj V :=
  match l with
  | [] => [e]
  | e' :: l' =>
      if index_of e <? index_of e' then e :: e' :: l'
      else e' :: insert_by_index e l'
  end.

(** [Object.entries(o)] *)
Definition Object_entries {V} (o : Obj V) : list (string * V) :=
  (fold_right insert_by_index []
     (filter (fun e => is_array_index (fst e)) o)
   ++ filter (fun e => negb (is_array_index (fst e))) o)%list.

(** [Object.keys(o)] *)
Definition Object_keys {V} (o : Obj V) : list string :=
  map fst (Object_entries o).

(** [Object.values(o)] *)
Definition Object_values {V} (o : Obj V) : list V :=
  map snd (Object_entries o).

(** *** Array.prototype.sort

    The sort is stable and never compares an element with itself; the
    comparator's result says whether its first argument goes after the
    second ([> 0]).  [None] is [NaN], which counts as [0]. *)

Definition goes_after {A} (comparefn : A -> A -> option Z) (a b : A)
  : bool :=
  match comparefn a b with
  | Some v => 0 <? v
  | None => false
  end.

Fixpoint sort_insert {A} (comparefn : A -> A -> option Z) (x : A)
  (l : list A) : list A :=
  match l with
  | [] => [x]
  | y :: l' =>
      if goes_after comparefn y x then x :: y :: l'
      else y :: sort_insert comparefn x l'
  end.

Definition Array_sort {A} (comparefn : A -> A -> option Z) (l : list A)
  : list A :=
  fold_left (fun acc x => sort_insert comparefn x acc) l [].

(** *** Loading *)

(** The URL requested by the effect that runs when the application is
    mounted; [now] is the value of [Date.now()]. *)
Definition index_url (BASE_URL : string) (now : Z) : string :=
  BASE_URL ++ "media_index.json?t=" ++ Number_toString now.

Inductive Request : Type := Fetch (request_url : string).

Definition on_mount (BASE_URL : string) (now : Z) : list Request :=
  [Fetch (index_url BASE_URL now)].

Section WithHost.
Context `{Host}.

(** *** groupedByDate *)

Definition filter_by_type (filterType : string)
  (filtered : list MediaRecord) : list MediaRecord :=
  if negb (filterType =? "all")%string then
    filter (fun file => (type file =? filterType)%string) filtered
  else filtered.

Definition matches_query (query : string) (file : MediaRecord) : bool :=
  includes (toLowerCase (fileName file)) query ||
  includes (toLowerCase (relativePath file)) query.

Definition filter_by_search (searchQuery : string)
  (filtered : list MediaRecord) : list MediaRecord :=
  if negb (searchQuery =? "")%string then
    let query := toLowerCase searchQuery in
    filter (matches_query query) filtered
  else filtered.

(** The files that pass both filters, in document order. *)
Definition filtered_files (doc : IndexDocument)
  (filterType searchQuery : string) : list MediaRecord :=
  filter_by_search searchQuery (filter_by_type filterType (files doc)).

Definition unknown_date : string := "unknown-date".

Definition dateKey (file : MediaRecord) : string :=
  match new_Date (creationDate (metadata file)) with
  | Some t => hd EmptyString (split "T" (toISOString t))
  | None => unknown_date
  end.

(** The reducer that builds the groups. *)
Definition add_to_group (acc : Obj (list MediaRecord))
  (file : MediaRecord) : Obj (list MediaRecord) :=
  let key := dateKey file in
  let acc1 :=
    match get acc key with
    | None => set acc key []
    | Some _ => acc
    end in
  match get acc1 key with
  | Some group => set acc1 key (group ++ [file])%list
  | None => acc1
  end.

(** The comparator handed to [sort]. *)
Definition compare_keys (a b : string) : option Z :=
  if (a =? unknown_date)%string then Some 1
  else if (b =? unknown_date)%string then Some (-1)
  else
    match new_Date (JVal (DateString b)), new_Date (JVal (DateString a))
    with
    | Some tb, Some ta => Some (tb - ta)
    | _, _ => None
    end.

Definition group_of (grouped : Obj (list MediaRecord)) (key : string)
  : list MediaRecord :=
  match get grouped key with
  | Some group => group
  | None => []
  end.

Definition groupedByDate (mediaData : option IndexDocument)
  (filterType searchQuery : string) : Obj (list MediaRecord) :=
  match mediaData with
  | None => []
  | Some doc =>
      let filtered := filtered_files doc filterType searchQuery in
      let grouped := fold_left add_to_group filtered [] in
      fold_left (fun acc key => set acc key (group_of grouped key))
        (Array_sort compare_keys (Object_keys grouped)) []
  end.

(** The date groups in the order they are rendered. *)
Definition displayed_groups (mediaData : option IndexDocument)
  (filterType searchQuery : string) : list (string * list MediaRecord) :=
  Object_entries (groupedByDate mediaData filterType searchQuery).

(** *** Header *)

Definition default_stats : Stats :=
  {| images := 0; videos := 0; audio := 0 |}.

(** [mediaData.metadata?.stats || { images: 0, videos: 0, audio: 0 }] *)
Definition header_stats (doc : IndexDocument) : Stats :=
  match doc_metadata doc with
  | JVal m =>
      match stats m with
      | JVal s => s
      | _ => default_stats
      end
  | _ => default_stats
  end.

Definition totalFiles (doc : IndexDocument)
  (filterType searchQuery : string) : Z :=
  fold_left (fun sum files => sum + Z.of_nat (List.length files))
    (Object_values (groupedByDate (Some doc) filterType searchQuery)) 0.

End WithHost.

End App.

(** ** Vocabulary of the statements *)

Module Spec.

(** Two decimal digits, zero-padded. *)
Definition two_digits (v : Z) : string :=
  String (digit (v / 10)) (String (digit (v mod 10)) EmptyString).

(** The integer nearest to [a / p], ties upwards. *)
Definition round_div (a p : Z) : Z := (2 * a + p) / (2 * p).

(** [q] occurs in [s]. *)
Definition substring_of (q s : string) : Prop :=
  exists pre post, s = pre ++ q ++ post.

(** A case mapping that works character by character. *)
Fixpoint map_string (f : ascii -> ascii) (s : string) : string :=
  match s with
  | EmptyString => EmptyString
  | String c s' => String (f c) (map_string f s')
  end.

(** [s] has a substring equal to [q] once [f] is applied to both. *)
Definition substring_up_to (f : ascii -> ascii) (q s : string) : Prop :=
  exists pre mid post,
    s = pre ++ mid ++ post /\ map_string f mid = map_string f q.

(** The invariant of a card: the frame index is in range; while the card
    is hovered exactly one interval runs, the one kept in [intervalRef];
    while it is not, none runs and the first frame is shown. *)
Definition hover_inv (file : MediaRecord) (st : MediaCard.State) : Prop :=
  (MediaCard.currentFrame st < List.length (frames (thumbnails file)))%nat /\
  (MediaCard.isHovering st = true ->
     exists h, MediaCard.intervalRef st = Some h /\
               MediaCard.timers st = [h]) /\
  (MediaCard.isHovering st = false ->
     MediaCard.timers st = [] /\ MediaCard.currentFrame st = O).

(** The characters of a printed date: digits and the two signs. *)
Definition date_char (c : ascii) : bool :=
  match digit_value c with
  | Some _ => true
  | None => Ascii.eqb c "+" || Ascii.eqb c "-"
  end.

Fixpoint all_chars (p : ascii -> bool) (s : string) : bool :=
  match s with
  | EmptyString => true
  | String c s' => p c && all_chars p s'
  end.

(** The days a time value can fall on. *)
Definition day_in_range (d : Z) : Prop := - 100000000 <= d <= 100000000.

(** The property names of the groups: the printed date of a day, or the
    name of the group of the files without a valid date. *)
Definition group_key (key : string) : Prop :=
  key = App.unknown_date \/
  exists d, day_in_range d /\ key = date_string d.

(** The position of a group: its day, with the group of unknown dates
    below every day. *)
Definition key_rank (key : string) : Z :=
  if (key =? App.unknown_date)%string then - 100000001
  else
    match Date_parse_iso key with
    | Some t => Day t
    | None => 0
    end.

(** Sorted by decreasing rank. *)
Definition decreasing {A : Type} (rank : A -> Z) : list A -> Prop :=
  StronglySorted (fun a b => rank a >= rank b).

(** A file is shown when it belongs to one of the rendered groups. *)
Definition displayed {A : Type} (file : A)
  (groups : list (string * list A)) : Prop :=
  exists key group, In (key, group) groups /\ In file group.

Section WithHost.
Context `{Host}.

(** The creation date of the file is not a valid date. *)
Definition no_valid_date (file : MediaRecord) : bool :=
  match new_Date (creationDate (metadata file)) with
  | Some _ => false
  | None => true
  end.

(** The files of a list that belong to the group [key]. *)
Definition files_of_day (key : string) (l : list MediaRecord)
  : list MediaRecord :=
  filter (fun file => (App.dateKey file =? key)%string) l.

(** The names of the groups of a list of files, in the order in which
    they are rendered. *)
Definition sorted_keys (l : list MediaRecord) : list string :=
  App.Array_sort App.compare_keys
    (map fst (fold_left App.add_to_group l [])).
End WithHost.

(** The state of a card that never starts an interval. *)
Definition idle (st : MediaCard.State) : Prop :=
  MediaCard.timers st = [] /\ MediaCard.intervalRef st = None /\
  MediaCard.currentFrame st = O.

(** The text whose UTF-8 encoding is [bytes]. *)
Definition utf8 (bytes : list nat) : string :=
  fold_right (fun b s => String (ascii_of_nat b) s) "" bytes.

(** The white space characters and the line terminators of the language:
    U+0009 to U+000D, U+0020, U+00A0, U+1680, U+2000 to U+200A, U+2028,
    U+2029, U+202F, U+205F, U+3000 and U+FEFF. *)
Definition white_space_characters : list string :=
  map utf8
    [[9]; [10]; [11]; [12]; [13]; [32]; [194; 160]; [225; 154; 128];
     [226; 128; 128]; [226; 128; 129]; [226; 128; 130]; [226; 128; 131];
     [226; 128; 132]; [226; 128; 133]; [226; 128; 134]; [226; 128; 135];
     [226; 128; 136]; [226; 128; 137]; [226; 128; 138]; [226; 128; 168];
     [226; 128; 169]; [226; 128; 175]; [226; 129; 159]; [227; 128; 128];
     [239; 187; 191]]%nat.

(** A text made of white space characters only. *)
Inductive only_white_space : string -> Prop :=
| only_white_space_empty : only_white_space ""
| only_white_space_more w s :
    In w white_space_characters -> only_white_space s ->
    only_white_space (w ++ s).

End Spec.
Export Spec.

(** ** MediaCard: the other parts of the card *)

Module CardView.

(** What an expression [a && b && <element>] leaves in the rendered tree:
    nothing for [false], [null], a missing value and the empty string, the
    number itself when the chain stops at a number (zero is the only falsy
    one), the element otherwise. *)
Inductive Child (E : Type) : Type :=
| Nothing
| NumberText (n : Q)
| Element (e : E).
Arguments Nothing {E}.
Arguments NumberText {E} n.
Arguments Element {E} e.

(** The duration overlay:
    [(type === 'video' || type === 'audio') && metadata.duration && <div>]. *)
Definition duration_overlay (file : MediaRecord) : Child string :=
  if (type file =? "video")%string || (type file =? "audio")%string then
    match duration (metadata file) with
    | JVal s =>
        if Qeq_bool s 0 then NumberText s
        else Element (MediaCard.formatDuration (JVal s))
    | JNull | JUndefined => Nothing
    end
  else Nothing.

(** The frame indicator:
    [type === 'video' && frames.length > 0 && isHovering && <div>], whose
    text is [currentFrame + 1], a slash and [frames.length]. *)
Definition frame_indicator (file : MediaRecord) (st : MediaCard.State)
  : option string :=
  if (type file =? "video")%string
     && (0 <? List.length (frames (thumbnails file)))%nat
     && MediaCard.isHovering st
  then
    Some (Number_toString (Z.of_nat (MediaCard.currentFrame st + 1)) ++ "/" ++
          Number_toString (Z.of_nat (List.length (frames (thumbnails file)))))
  else None.

(** Removing the card runs the cleanup of its last effect. *)
Definition unmount (st : MediaCard.State) : MediaCard.State :=
  MediaCard.cleanup st.

End CardView.

(** ** App: the content below the header *)

Module AppView.

(** The heading of a group: a fixed text for the group of unknown dates,
    otherwise the date handed to [toLocaleDateString], which is
    [new Date(date)]. *)
Inductive Heading : Type :=
| UnknownDateHeading
| LocaleDate (t : option Z).

(** [{files.length} {files.length === 1 ? 'file' : 'files'}] *)
Definition count_label (files : list MediaRecord) : string :=
  Number_toString (Z.of_nat (List.length files)) ++ " " ++
  (if (List.length files =? 1)%nat then "file" else "files").

Inductive Content : Type :=
| NoFilesFound
| DateGroups (groups : list (Heading * string * list MediaRecord)).

Section WithHost.
Context `{Host}.

Definition group_heading (date : string) : Heading :=
  if (date =? App.unknown_date)%string then UnknownDateHeading
  else LocaleDate (new_Date (JVal (DateString date))).

(** The main area once a document is loaded. *)
Definition main_content (doc : IndexDocument)
  (filterType searchQuery : string) : Content :=
  let grouped := App.groupedByDate (Some doc) filterType searchQuery in
  if (List.length (App.Object_keys grouped) =? 0)%nat then NoFilesFound
  else
    DateGroups
      (map (fun entry =>
              (group_heading (fst entry), count_label (snd entry), snd entry))
         (App.Object_entries grouped)).

End WithHost.

End AppView.

(** ** MediaCard: renders and effects, one at a time

    React commits the render caused by a state update first and runs the
    effect of that render afterwards; the update the effect makes is shown
    by the next render.  Here a card is followed from one committed render
    to the next. *)

Module Render.

(** The state shown by the last committed render (with the ref and the
    intervals still running), whether the effect of that render has yet to
    run, and the handle the next [setInterval] returns. *)
Record Card : Type := {
  state : MediaCard.State;
  effect_pending : bool;
  nextHandle : positive
}.

(** The first render; its effect has not run. *)
Definition first_render (handle : positive) : Card :=
  {| state := {| MediaCard.currentFrame := 0;
                 MediaCard.isHovering := false;
                 MediaCard.intervalRef := None;
                 MediaCard.timers := [] |};
     effect_pending := true;
     nextHandle := handle |}.

(** The effect that is due, if any: the cleanup returned last time (there is
    none, and nothing to clear, before the first effect), then the body of
    the effect; the state it sets is the one the next render shows. *)
Definition run_effects (file : MediaRecord) (c : Card) : Card :=
  if effect_pending c then
    {| state :=
         MediaCard.effect file (nextHandle c) (MediaCard.cleanup (state c));
       effect_pending := false;
       nextHandle := Pos.succ (nextHandle c) |}
  else c.

(** [setIsHovering(b)] from a mouse handler.  Nothing happens when the
    value is unchanged.  Otherwise an effect that is still due runs first,
    then the card is rendered with the new value; [isHovering] is a
    dependency of the effect, which is due again. *)
Definition setIsHovering (file : MediaRecord) (b : bool) (c : Card) : Card :=
  if Bool.eqb (MediaCard.isHovering (state c)) b then c
  else
    let c1 := run_effects file c in
    {| state :=
         {| MediaCard.currentFrame := MediaCard.currentFrame (state c1);
            MediaCard.isHovering := b;
            MediaCard.intervalRef := MediaCard.intervalRef (state c1);
            MediaCard.timers := MediaCard.timers (state c1) |};
       effect_pending := true;
       nextHandle := nextHandle c1 |}.

(** The callback of a running interval: [setCurrentFrame] with the
    successor modulo the number of frames.  An effect that is still due runs
    before the render, after the update of the callback. *)
Definition interval_callback (file : MediaRecord) (c : Card) : Card :=
  run_effects file
    {| state := MediaCard.tick file (state c);
       effect_pending := effect_pending c;
       nextHandle := nextHandle c |}.

Inductive Event : Type :=
| MouseEnter
| MouseLeave
| Tick (handle : positive)
| Effects.

(** One step.  A callback needs its interval to be running; the effect
    runs on its own only when it is due. *)
Definition dispatch (file : MediaRecord) (c : Card) (e : Event)
  : option Card :=
  match e with
  | MouseEnter => Some (setIsHovering file true c)
  | MouseLeave => Some (setIsHovering file false c)
  | Tick h =>
      if existsb (Pos.eqb h) (MediaCard.timers (state c))
      then Some (interval_callback file c)
      else None
  | Effects =>
      if effect_pending c then Some (run_effects file c) else None
  end.

Fixpoint run (file : MediaRecord) (c : Card) (es : list Event)
  : option Card :=
  match es with
  | [] => Some c
  | e :: es' =>
      match dispatch file c e with
      | Some c' => run file c' es'
      | None => None
      end
  end.

(** The renders a card can show. *)
Inductive reachable (file : MediaRecord) : Card -> Prop :=
| reachable_first handle : reachable file (first_render handle)
| reachable_step c e c' :
    reachable file c -> dispatch file c e = Some c' -> reachable file c'.

(** The frame index the render shows, and whether it shows the card as
    hovered. *)
Definition shown_frame (c : Card) : nat := MediaCard.currentFrame (state c).
Definition hovered (c : Card) : bool := MediaCard.isHovering (state c).

(** The invariant of a card that is a video with frames: the index is in
    range; at most one interval runs, the one kept in the ref; once the
    effect has run, an interval runs exactly when the card is hovered, and
    the first frame is shown when it is not; a card just rendered as
    hovered shows the first frame, with no interval yet. *)
Definition invariant (file : MediaRecord) (c : Card) : Prop :=
  (shown_frame c < List.length (frames (thumbnails file)))%nat /\
  (MediaCard.timers (state c) = [] \/
   exists h, MediaCard.intervalRef (state c) = Some h /\
             MediaCard.timers (state c) = [h]) /\
  (effect_pending c = false -> hovered c = true ->
     exists h, MediaCard.intervalRef (state c) = Some h /\
               MediaCard.timers (state c) = [h]) /\
  (effect_pending c = false -> hovered c = false ->
     MediaCard.timers (state c) = [] /\ shown_frame c = O) /\
  (effect_pending c = true -> hovered c = true ->
     MediaCard.timers (state c) = [] /\ shown_frame c = O).

End Render.

(** ** A host and a document to evaluate the definitions on *)

Module Examples.

Definition ascii_lower (c : ascii) : ascii :=
  let n := nat_of_ascii c in
  if ((65 <=? n) && (n <=? 90))%nat then ascii_of_nat (n + 32) else c.

Definition ascii_toLowerCase (s : string) : string :=
  map_string ascii_lower s.

(** A host for ASCII text whose legacy date grammar accepts nothing. *)
Definition ascii_host : Host :=
  {| toLowerCase := ascii_toLowerCase;
     Date_parse_legacy := fun _ => None |}.

Definition record (name kind : string) (date : nullable DateValue)
    (preview : list string) (drive : nullable GoogleDrive) : MediaRecord :=
  {| id := name; type := kind; fileName := name;
     relativePath := "Trip/" ++ name;
     metadata := {| creationDate := date; resolution := JNull;
                    duration := JNull; fileSize := 2048 |};
     thumbnails := {| main := JVal ("thumbnails/" ++ name ++ ".jpg");
                      frames := preview |};
     googleDrive := drive |}.

Definition beach : MediaRecord :=
  record "Beach.JPG" "image" (JVal (DateString "2023-05-01T10:00:00Z")) []
    (JVal {| url := JVal " https://drive.example/beach " |}).

Definition clip : MediaRecord :=
  record "clip.mp4" "video" (JVal (DateString "2024-01-02"))
    ["frames/clip_0.jpg"; "frames/clip_1.jpg"; "frames/clip_2.jpg"]
    JUndefined.

Definition sunset : MediaRecord :=
  record "sunset.jpg" "image" (JVal (DateString "2023-05-01T23:30:00.000Z"))
    [] (JVal {| url := JVal "  " |}).

Definition memo : MediaRecord :=
  record "memo.mp3" "audio" (JVal (DateString "not a date")) [] JNull.

Definition sample : IndexDocument :=
  {| doc_metadata := JUndefined; files := [beach; clip; sunset; memo] |}.

End Examples.

(* ================================================================== *)
(** * Part II: properties *)
(* ================================================================== *)

(** ** Strings and numerals *)

Lemma append_nil_r (s : string) : s ++ "" = s.
Proof. induction s as [|c s IH]; simpl; [reflexivity | now rewrite IH]. Qed.

Lemma append_assoc (a b c : string) : (a ++ b) ++ c = a ++ (b ++ c).
Proof. induction a as [|x a IH]; simpl; [reflexivity | now rewrite IH]. Qed.

Lemma length_append (a b : string) :
  String.length (a ++ b) = (String.length a + String.length b)%nat.
Proof. induction a as [|x a IH]; simpl; [reflexivity | now rewrite IH]. Qed.

Lemma append_inj_l (a x y : string) : a ++ x = a ++ y -> x = y.
Proof.
  induction a as [|c a IH]; simpl; intros E; [exact E|].
  injection E as E. now apply IH.
Qed.

Lemma to_int_not_nil (z : Z) :
  Z.to_int z <> Decimal.Pos Decimal.Nil /\
  Z.to_int z <> Decimal.Neg Decimal.Nil.
Proof.
  destruct z as [|p|p]; simpl; split; try discriminate;
    intros E; injection E as E;
    (apply (f_equal Pos.of_uint) in E; rewrite DecimalPos.Unsigned.of_to in E;
     discriminate).
Qed.

(** Distinct numbers have distinct numerals. *)
Lemma Number_toString_inj (a b : Z) :
  Number_toString a = Number_toString b -> a = b.
Proof.
  unfold Number_toString. intros E.
  apply DecimalZ.to_int_inj.
  destruct (to_int_not_nil a) as [Ha1 Ha2].
  destruct (to_int_not_nil b) as [Hb1 Hb2].
  pose proof (NilZero.isi _ Ha1 Ha2) as Ia.
  pose proof (NilZero.isi _ Hb1 Hb2) as Ib.
  rewrite E in Ia. rewrite Ia in Ib. now injection Ib.
Qed.

(** ** Loading the index *)

(** C7. When the application is mounted it requests the index document at
    its well-known path below the base URL, followed by the query parameter
    [t] whose value is the current time in milliseconds; two loads at
    different times therefore request different URLs. *)
Theorem index_url_cache_busting (BASE_URL : string) (now1 now2 : Z) :
  now1 <> now2 ->
  App.on_mount BASE_URL now1 =
    [App.Fetch (BASE_URL ++ "media_index.json" ++ "?t=" ++ Number_toString now1)]
  /\ App.index_url BASE_URL now1 <> App.index_url BASE_URL now2.
Proof.
  intros Hne. split; [reflexivity|].
  unfold App.index_url. intros E.
  apply append_inj_l in E.
  apply (append_inj_l "media_index.json?t=") in E.
  now apply Number_toString_inj in E.
Qed.

Lemma index_url_cache_busting_witness :
  App.index_url "/" 1700000000123 <> App.index_url "/" 1700000000124.
Proof.
  apply (index_url_cache_busting "/" 1700000000123 1700000000124).
  discriminate.
Defined.

(** ** Rational arithmetic of the formatters *)

Lemma Qfloor_div_pos (s : Q) (m : positive) :
  Qfloor (s / inject_Z (Zpos m)) = Qfloor s / Zpos m.
Proof.
  destruct s as [a b]. unfold Qdiv, Qmult, Qinv, Qfloor, inject_Z. simpl.
  rewrite Z.mul_1_r, Pos2Z.inj_mul, Z.div_div; lia.
Qed.

Lemma Qfloor_sub_Z (s : Q) (z : Z) :
  Qfloor (s - inject_Z z) = Qfloor s - z.
Proof.
  destruct s as [a b]. unfold Qminus, Qplus, Qopp, Qfloor, inject_Z. simpl.
  rewrite Z.mul_1_r, Pos.mul_1_r.
  replace (a + - z * Zpos b) with (a + (- z) * Zpos b) by lia.
  rewrite Z.div_add by lia. lia.
Qed.

Lemma Qfloor_nonneg (s : Q) : (0 <= s)%Q -> 0 <= Qfloor s.
Proof.
  intros Hs. apply (Qfloor_resp_le 0 s) in Hs. exact Hs.
Qed.

(** For a non-negative dividend [%] is the remainder of the floor
    division, and the integral part of the remainder is the remainder of
    the integral part. *)
Lemma Qfloor_rem_pos (s : Q) (m : positive) :
  (0 <= s)%Q -> Qfloor (rem s (inject_Z (Zpos m))) = Qfloor s mod Zpos m.
Proof.
  intros Hs. unfold rem, Qtrunc.
  assert (Hq : Qle_bool 0 (s / inject_Z (Zpos m)) = true).
  { apply Qle_bool_iff. apply Qle_shift_div_l; [reflexivity|].
    now rewrite Qmult_0_l. }
  rewrite Hq, Qfloor_div_pos.
  rewrite <- inject_Z_mult, Qfloor_sub_Z.
  rewrite Z.mod_eq by lia. reflexivity.
Qed.

Lemma Qfloor_rem_div_pos (s : Q) (m d : positive) :
  (0 <= s)%Q ->
  Qfloor (rem s (inject_Z (Zpos m)) / inject_Z (Zpos d)) =
  (Qfloor s mod Zpos m) / Zpos d.
Proof.
  intros Hs. now rewrite Qfloor_div_pos, Qfloor_rem_pos.
Qed.

Lemma two_digits_table :
  forallb (fun i =>
    (padStart (Number_toString (Z.of_nat i)) 2 "0"
       =? two_digits (Z.of_nat i))%string) (seq 0 100) = true.
Proof. vm_compute. reflexivity. Qed.

(** [padStart(2, '0')] of a number below one hundred is its two digits. *)
Lemma padStart_two_digits (v : Z) :
  0 <= v < 100 -> padStart (Number_toString v) 2 "0" = two_digits v.
Proof.
  intros Hv.
  pose proof two_digits_table as T. rewrite forallb_forall in T.
  specialize (T (Z.to_nat v)).
  rewrite Z2Nat.id in T by lia.
  apply String.eqb_eq, T, in_seq. lia.
Qed.

(** The three fields computed by [formatDuration] for a positive duration. *)
Lemma duration_parts (s : Q) :
  (0 < s)%Q ->
  (Qfloor (s / 3600) = Qfloor s / 3600 /\
   Qfloor (rem s 3600 / 60) = (Qfloor s / 60) mod 60 /\
   Qfloor (rem s 60) = Qfloor s mod 60) /\
  Qeq_bool s 0 = false.
Proof.
  intros Hpos.
  assert (Hle : (0 <= s)%Q) by now apply Qlt_le_weak.
  pose proof (Qfloor_nonneg s Hle) as H0.
  split; [split; [|split]|].
  - exact (Qfloor_div_pos s 3600).
  - replace (Qfloor (rem s 3600 / 60)) with (Qfloor s mod 3600 / 60)
      by (symmetry; exact (Qfloor_rem_div_pos s 3600 60 Hle)).
    Z.div_mod_to_equations. lia.
  - exact (Qfloor_rem_pos s 60 Hle).
  - destruct (Qeq_bool s 0) eqn:E; [|reflexivity].
    apply Qeq_bool_iff in E. rewrite E in Hpos. discriminate.
Qed.

(** ** formatDuration *)

(** C8. [formatDuration] returns the empty string for [null], for a missing
    value and for zero.  For a duration of less than an hour it returns the
    minutes, a colon and the seconds on two digits; from one hour on, and
    below [2^53] seconds (where the quotients the code computes in double
    precision have the integral parts of the exact ones), it returns the
    hours, the minutes on two digits and the seconds on two digits.  All
    three are computed from the whole seconds of the duration: the fraction
    is dropped. *)
Theorem formatDuration_spec :
  MediaCard.formatDuration JNull = "" /\
  MediaCard.formatDuration JUndefined = "" /\
  (forall s : Q, s == 0 -> MediaCard.formatDuration (JVal s) = "") /\
  (forall s : Q, (0 < s)%Q -> (s < 3600)%Q ->
     MediaCard.formatDuration (JVal s) =
       Number_toString (Qfloor s / 60) ++ ":" ++
       two_digits (Qfloor s mod 60)) /\
  (forall s : Q, (3600 <= s)%Q -> (s < 9007199254740992)%Q ->
     MediaCard.formatDuration (JVal s) =
       Number_toString (Qfloor s / 3600) ++ ":" ++
       two_digits ((Qfloor s / 60) mod 60) ++ ":" ++
       two_digits (Qfloor s mod 60)).
Proof.
  split; [reflexivity|]. split; [reflexivity|].
  split; [|split].
  - intros s Hs. unfold MediaCard.formatDuration.
    apply Qeq_bool_iff in Hs. now rewrite Hs.
  - intros s Hpos Hlt. unfold MediaCard.formatDuration.
    destruct (duration_parts s Hpos) as [(Hh & Hm & Hs) Hnz].
    rewrite Hnz. cbv zeta. rewrite Hh, Hm, Hs.
    pose proof (Qfloor_nonneg s (Qlt_le_weak _ _ Hpos)) as H0.
    assert (Hn : Qfloor s < 3600).
    { rewrite Zlt_Qlt. apply Qle_lt_trans with s; [apply Qfloor_le | exact Hlt]. }
    assert (Hz : (0 <? Qfloor s / 3600) = false).
    { apply Z.ltb_ge. rewrite Z.div_small; lia. }
    rewrite Hz, padStart_two_digits
      by (pose proof (Z.mod_pos_bound (Qfloor s) 60); lia).
    rewrite Z.mod_small; [reflexivity|].
    split; [apply Z.div_pos; lia | apply Z.div_lt_upper_bound; lia].
  - intros s Hge _. unfold MediaCard.formatDuration.
    assert (Hpos : (0 < s)%Q).
    { apply Qlt_le_trans with 3600%Q; [reflexivity | exact Hge]. }
    destruct (duration_parts s Hpos) as [(Hh & Hm & Hs) Hnz].
    rewrite Hnz. cbv zeta. rewrite Hh, Hm, Hs.
    assert (Hn : 3600 <= Qfloor s).
    { apply (Qfloor_resp_le 3600 s) in Hge. exact Hge. }
    assert (Hz : (0 <? Qfloor s / 3600) = true).
    { apply Z.ltb_lt. apply Z.div_str_pos. lia. }
    rewrite Hz.
    rewrite !padStart_two_digits; [reflexivity | |];
      match goal with |- 0 <= ?a mod 60 < 100 =>
        pose proof (Z.mod_pos_bound a 60); lia end.
Qed.

Lemma formatDuration_spec_witness :
  MediaCard.formatDuration (JVal 0%Q) = "" /\
  MediaCard.formatDuration (JVal (251 # 2)) = "2:05" /\
  MediaCard.formatDuration (JVal (7451 # 2)) = "1:02:05".
Proof.
  destruct formatDuration_spec as (_ & _ & Hzero & Hshort & Hlong).
  split; [|split].
  - apply (Hzero 0%Q). reflexivity.
  - rewrite (Hshort (251 # 2)); reflexivity.
  - rewrite (Hlong (7451 # 2)); [reflexivity | discriminate | reflexivity].
Defined.


(** ** formatFileSize *)

Lemma pow_1024 (i : Z) : 0 <= i -> 1024 ^ i = 2 ^ (10 * i).
Proof. intros Hi. rewrite Z.pow_mul_r by lia. reflexivity. Qed.

(** The unit index is the exponent of the largest power of 1024 that does
    not exceed the size. *)
Lemma unit_index_spec (b : Z) :
  1 <= b ->
  0 <= MediaCard.unit_index b /\
  1024 ^ MediaCard.unit_index b <= b < 1024 ^ (MediaCard.unit_index b + 1).
Proof.
  intros Hb. unfold MediaCard.unit_index, floor_log_ratio, MediaCard.k.
  change (Z.log2 1024) with 10.
  pose proof (Z.log2_nonneg b) as HL.
  destruct (Z.log2_spec b ltac:(lia)) as [Hlo Hhi].
  set (L := Z.log2 b) in *.
  assert (Hi : 0 <= L / 10) by (apply Z.div_pos; lia).
  split; [exact Hi|].
  rewrite !pow_1024 by lia. split.
  - apply Z.le_trans with (2 ^ L); [|exact Hlo].
    apply Z.pow_le_mono_r; [lia|]. Z.div_mod_to_equations. lia.
  - apply Z.lt_le_trans with (2 ^ Z.succ L); [exact Hhi|].
    apply Z.pow_le_mono_r; [lia|]. Z.div_mod_to_equations. lia.
Qed.

Lemma unit_index_lt (b : Z) (n : Z) :
  1 <= b -> 0 <= n -> b < 1024 ^ n -> MediaCard.unit_index b < n.
Proof.
  intros Hb Hn Hlt. destruct (unit_index_spec b Hb) as (Hi & Hlo & _).
  destruct (Z.lt_ge_cases (MediaCard.unit_index b) n) as [|Hge]; [assumption|].
  exfalso. assert (1024 ^ n <= 1024 ^ MediaCard.unit_index b)
    by (apply Z.pow_le_mono_r; lia). lia.
Qed.

Lemma unit_index_ge (b : Z) (n : Z) :
  1 <= b -> 0 <= n -> 1024 ^ n <= b -> n <= MediaCard.unit_index b.
Proof.
  intros Hb Hn Hle. destruct (unit_index_spec b Hb) as (Hi & _ & Hhi).
  destruct (Z.le_gt_cases n (MediaCard.unit_index b)) as [|Hlt]; [assumption|].
  exfalso. assert (1024 ^ (MediaCard.unit_index b + 1) <= 1024 ^ n)
    by (apply Z.pow_le_mono_r; lia). lia.
Qed.

(** [Math.round(bytes / p * 100)] is the number of hundredths nearest to
    [bytes / p]. *)
Lemma Math_round_hundredths (b p : Z) :
  0 < p ->
  Math_round (inject_Z b / inject_Z p * 100) = round_div (100 * b) p.
Proof.
  intros Hp. unfold Math_round, round_div.
  rewrite Zdiv_Qdiv. apply Qfloor_comp.
  rewrite !inject_Z_plus, !inject_Z_mult.
  assert (Hq : ~ inject_Z p == 0).
  { intros E. apply (inject_Z_injective p 0) in E. lia. }
  field. exact Hq.
Qed.

(** The text of [n / 100], digit by digit: the whole part, then nothing
    when both decimals are zero, one decimal when the second is zero, two
    decimals otherwise. *)
Lemma Number_toString_hundredths_digits (n : Z) :
  0 <= n ->
  Number_toString_hundredths n =
    Number_toString (n / 100) ++
    (if ((n / 10) mod 10 =? 0) && (n mod 10 =? 0) then ""
     else if n mod 10 =? 0
          then String "." (String (digit ((n / 10) mod 10)) "")
          else String "." (String (digit ((n / 10) mod 10))
                             (String (digit (n mod 10)) ""))).
Proof.
  intros Hn. unfold Number_toString_hundredths. cbv zeta.
  replace ((n mod 100) mod 10) with (n mod 10)
    by (Z.div_mod_to_equations; lia).
  replace (n mod 100 / 10) with ((n / 10) mod 10)
    by (Z.div_mod_to_equations; lia).
  f_equal.
  destruct (Z.eqb_spec (n mod 100) 0) as [E | E];
    destruct (Z.eqb_spec ((n / 10) mod 10) 0) as [E1 | E1];
    destruct (Z.eqb_spec (n mod 10) 0) as [E2 | E2];
    cbn [andb]; try reflexivity; exfalso;
    revert E E1 E2; Z.div_mod_to_equations; lia.
Qed.

(** C9. [formatFileSize(0)] is ['0 B'].  For a size [b] of at least one
    byte and below [1024^4], let [1024^i] be the largest power of 1024 not
    above [b] and [n] the number of hundredths nearest to [b / 1024^i] (ties
    upwards).  The result is the decimal text of [n / 100] (its whole part,
    followed by a point and one or two decimals when they are not zero), a
    space and the unit of index [i] in B, KB, MB, GB.  From [1024^4] on the
    index lies beyond the table of units, and the text of a missing entry
    takes the place of the unit. *)
Theorem formatFileSize_spec :
  MediaCard.formatFileSize 0 = "0 B" /\
  (forall b : Z, 1 <= b < 1024 ^ 4 ->
     exists (i : nat) (unit : string) (n : Z),
       nth_error ["B"; "KB"; "MB"; "GB"] i = Some unit /\
       1024 ^ Z.of_nat i <= b < 1024 ^ (Z.of_nat i + 1) /\
       2 * (100 * b) - 1024 ^ Z.of_nat i < 2 * n * 1024 ^ Z.of_nat i
         <= 2 * (100 * b) + 1024 ^ Z.of_nat i /\
       100 <= n <= 102400 /\
       MediaCard.formatFileSize b =
         Number_toString (n / 100) ++
         (if ((n / 10) mod 10 =? 0) && (n mod 10 =? 0) then ""
          else if n mod 10 =? 0
               then String "." (String (digit ((n / 10) mod 10)) "")
               else String "." (String (digit ((n / 10) mod 10))
                                  (String (digit (n mod 10)) "")))
         ++ " " ++ unit) /\
  (forall b : Z, 1024 ^ 4 <= b ->
     4 <= MediaCard.unit_index b /\
     nth_error MediaCard.sizes (Z.to_nat (MediaCard.unit_index b)) = None /\
     exists number, MediaCard.formatFileSize b = number ++ " undefined").
Proof.
  split; [reflexivity|]. split.
  - intros b [Hlo Hhi].
    destruct (unit_index_spec b Hlo) as (Hi & Hp1 & Hp2).
    pose proof (unit_index_lt b 4 Hlo ltac:(lia) Hhi) as Hi4.
    set (i := MediaCard.unit_index b) in *.
    assert (Hpos : 0 < 1024 ^ i) by (apply Z.pow_pos_nonneg; lia).
    exists (Z.to_nat i).
    assert (Hu : exists unit,
               nth_error ["B"; "KB"; "MB"; "GB"] (Z.to_nat i) = Some unit /\
               MediaCard.unit_name i = unit).
    { unfold MediaCard.unit_name.
      assert (Hc : i = 0 \/ i = 1 \/ i = 2 \/ i = 3) by lia.
      destruct Hc as [-> | [-> | [-> | ->]]]; simpl; eauto. }
    destruct Hu as (unit & Hnth & Hname).
    exists unit, (round_div (100 * b) (1024 ^ i)).
    rewrite Z2Nat.id by lia.
    assert (Hp : 1024 ^ i <= b < 1024 ^ (i + 1)) by (split; assumption).
    replace (1024 ^ (i + 1)) with (1024 * 1024 ^ i) in Hp2
      by (rewrite Z.pow_add_r by lia; lia).
    assert (Hn : 100 <= round_div (100 * b) (1024 ^ i) <= 102400).
    { unfold round_div. split.
      - apply Z.div_le_lower_bound; lia.
      - apply Z.lt_succ_r. apply Z.div_lt_upper_bound; lia. }
    split; [exact Hnth|]. split; [exact Hp|]. split; [|split; [exact Hn|]].
    + clear Hp. unfold round_div. set (p := 1024 ^ i) in *.
      pose proof (Z.div_mod (2 * (100 * b) + p) (2 * p) ltac:(lia)) as Hd.
      pose proof (Z.mod_pos_bound (2 * (100 * b) + p) (2 * p) ltac:(lia)) as Hm.
      set (q := (2 * (100 * b) + p) / (2 * p)) in *.
      set (r := (2 * (100 * b) + p) mod (2 * p)) in *.
      nia.
    + unfold MediaCard.formatFileSize.
      replace (b =? 0) with false by (symmetry; apply Z.eqb_neq; lia).
      replace (b <? 0) with false by (symmetry; apply Z.ltb_ge; lia).
      cbv zeta. fold i. unfold MediaCard.k.
      rewrite Math_round_hundredths by exact Hpos.
      rewrite Number_toString_hundredths_digits by lia.
      now rewrite Hname, append_assoc.
  - intros b Hb.
    assert (Hlo : 1 <= b) by (change (1024 ^ 4) with 1099511627776 in Hb; lia).
    pose proof (unit_index_ge b 4 Hlo ltac:(lia) Hb) as Hi4.
    set (i := MediaCard.unit_index b) in *.
    assert (Hpos : 0 < 1024 ^ i) by (apply Z.pow_pos_nonneg; lia).
    assert (Hnth : nth_error MediaCard.sizes (Z.to_nat i) = None).
    { apply nth_error_None. simpl. lia. }
    split; [exact Hi4|]. split; [exact Hnth|].
    unfold MediaCard.formatFileSize.
    replace (b =? 0) with false by (symmetry; apply Z.eqb_neq; lia).
    replace (b <? 0) with false by (symmetry; apply Z.ltb_ge; lia).
    cbv zeta. fold i. unfold MediaCard.unit_name.
    rewrite Hnth. eexists. reflexivity.
Qed.

Lemma formatFileSize_spec_witness :
  (exists (i : nat) (unit : string) (n : Z),
     nth_error ["B"; "KB"; "MB"; "GB"] i = Some unit /\
     1024 ^ Z.of_nat i <= 1234567 < 1024 ^ (Z.of_nat i + 1) /\
     2 * (100 * 1234567) - 1024 ^ Z.of_nat i < 2 * n * 1024 ^ Z.of_nat i
       <= 2 * (100 * 1234567) + 1024 ^ Z.of_nat i /\
     100 <= n <= 102400 /\
     MediaCard.formatFileSize 1234567 =
       Number_toString (n / 100) ++
       (if ((n / 10) mod 10 =? 0) && (n mod 10 =? 0) then ""
        else if n mod 10 =? 0
             then String "." (String (digit ((n / 10) mod 10)) "")
             else String "." (String (digit ((n / 10) mod 10))
                                (String (digit (n mod 10)) "")))
       ++ " " ++ unit) /\
  4 <= MediaCard.unit_index (1024 ^ 4).
Proof.
  destruct formatFileSize_spec as (_ & Hsmall & Hlarge). split.
  - apply (Hsmall 1234567). split; [lia | reflexivity].
  - apply (Hlarge (1024 ^ 4)). apply Z.le_refl.
Defined.


(** ** Thumbnail selection *)

Lemma is_video_with_frames_true (file : MediaRecord) :
  MediaCard.is_video_with_frames file = true <->
  type file = "video" /\ frames (thumbnails file) <> [].
Proof.
  unfold MediaCard.is_video_with_frames.
  rewrite andb_true_iff, String.eqb_eq, Nat.ltb_lt.
  destruct (frames (thumbnails file)); simpl; split; intros [Ht Hf];
    split; try assumption; try discriminate; try lia; congruence.
Qed.

(** C4. For a video with at least one frame the thumbnail is the entry of
    [frames] at the current frame index; for every other record it is
    [thumbnails.main].  A thumbnail that is a non-empty path is displayed as
    an image whose source is that path below the root and whose alternative
    text is the file name.  When the selected thumbnail is [null] or missing
    (or the empty string), the card shows no image but the placeholder, which
    holds the icon of the record's type: the video, audio or image icon. *)
Theorem thumbnail_spec (file : MediaRecord) (currentFrame : nat) :
  (type file = "video" -> frames (thumbnails file) <> [] ->
     forall p, nth_error (frames (thumbnails file)) currentFrame = Some p ->
     MediaCard.thumbnail file currentFrame = JVal p) /\
  (type file <> "video" \/ frames (thumbnails file) = [] ->
     MediaCard.thumbnail file currentFrame = main (thumbnails file)) /\
  (forall p, MediaCard.thumbnail file currentFrame = JVal p -> p <> "" ->
     MediaCard.render_thumbnail file currentFrame =
       MediaCard.Img ("/" ++ p) (fileName file)) /\
  (MediaCard.thumbnail file currentFrame = JNull \/
   MediaCard.thumbnail file currentFrame = JUndefined \/
   MediaCard.thumbnail file currentFrame = JVal "" ->
     MediaCard.render_thumbnail file currentFrame =
       MediaCard.NoThumbnail (MediaCard.getTypeIcon file)) /\
  (type file = "video" ->
     MediaCard.getTypeIcon file = Some MediaCard.VideoIcon) /\
  (type file = "audio" ->
     MediaCard.getTypeIcon file = Some MediaCard.AudioIcon) /\
  (type file = "image" ->
     MediaCard.getTypeIcon file = Some MediaCard.ImageIcon).
Proof.
  split; [|split; [|split; [|split; [|split; [|split]]]]].
  - intros Ht Hf p Hp. unfold MediaCard.thumbnail.
    rewrite (proj2 (is_video_with_frames_true file) (conj Ht Hf)).
    now rewrite Hp.
  - intros Hno. unfold MediaCard.thumbnail.
    destruct (MediaCard.is_video_with_frames file) eqn:E; [|reflexivity].
    apply is_video_with_frames_true in E. destruct E as [Ht Hf].
    destruct Hno; contradiction.
  - intros p Hp Hne. unfold MediaCard.render_thumbnail. rewrite Hp.
    now rewrite (proj2 (String.eqb_neq _ _) Hne).
  - intros Hnull. unfold MediaCard.render_thumbnail.
    destruct Hnull as [-> | [-> | ->]]; reflexivity.
  - unfold MediaCard.getTypeIcon. now intros ->.
  - unfold MediaCard.getTypeIcon. now intros ->.
  - unfold MediaCard.getTypeIcon. now intros ->.
Qed.

Lemma thumbnail_spec_witness :
  MediaCard.thumbnail Examples.clip 1 = JVal "frames/clip_1.jpg" /\
  MediaCard.render_thumbnail Examples.clip 1 =
    MediaCard.Img "/frames/clip_1.jpg" "clip.mp4".
Proof.
  destruct (thumbnail_spec Examples.clip 1) as (Hframe & _ & Himg & _).
  assert (Hth : MediaCard.thumbnail Examples.clip 1 = JVal "frames/clip_1.jpg")
    by (apply Hframe; [reflexivity | discriminate | reflexivity]).
  split; [exact Hth|].
  apply (Himg "frames/clip_1.jpg" Hth). discriminate.
Defined.

(** ** Click *)

Lemma trim_nonempty (u : string) : trim u <> "" -> u <> "".
Proof. intros Hu ->. now apply Hu. Qed.

Lemma byte_is_eq (c : ascii) (n : nat) :
  byte_is c n = true -> c = ascii_of_nat n.
Proof.
  unfold byte_is. intros H. apply Nat.eqb_eq in H.
  now rewrite <- H, ascii_nat_embedding.
Qed.

Lemma nat_of_ascii_eq (c : ascii) (n : nat) :
  nat_of_ascii c = n -> c = ascii_of_nat n.
Proof. intros <-. now rewrite ascii_nat_embedding. Qed.

Ltac in_white_space_characters :=
  cbv [white_space_characters map utf8 fold_right In];
  solve [repeat (first [left; reflexivity | right])].

Lemma is_white_space_in (c : ascii) :
  is_white_space c = true -> In (String c "") white_space_characters.
Proof.
  unfold is_white_space. intros H.
  apply orb_true_iff in H as [H|H].
  - apply andb_true_iff in H as [H1 H2].
    apply Nat.leb_le in H1, H2.
    assert (Hn : (nat_of_ascii c = 9 \/ nat_of_ascii c = 10 \/
                  nat_of_ascii c = 11 \/ nat_of_ascii c = 12 \/
                  nat_of_ascii c = 13)%nat) by lia.
    clear H1 H2.
    repeat destruct Hn as [Hn|Hn];
      apply nat_of_ascii_eq in Hn; subst c; in_white_space_characters.
  - apply Nat.eqb_eq, nat_of_ascii_eq in H. subst c.
    in_white_space_characters.
Qed.

Lemma is_white_space2_in (c1 c2 : ascii) :
  is_white_space2 c1 c2 = true ->
  In (String c1 (String c2 "")) white_space_characters.
Proof.
  unfold is_white_space2. intros H.
  apply andb_true_iff in H as [H1 H2].
  apply byte_is_eq in H1, H2. subst. in_white_space_characters.
Qed.

Lemma is_white_space3_in (c1 c2 c3 : ascii) :
  is_white_space3 c1 c2 c3 = true ->
  In (String c1 (String c2 (String c3 ""))) white_space_characters.
Proof.
  unfold is_white_space3, byte_is. cbv zeta. intros H.
  rewrite ?orb_true_iff, ?andb_true_iff, ?orb_true_iff, ?andb_true_iff,
    ?Nat.leb_le, ?Nat.eqb_eq in H.
  rewrite <- (ascii_nat_embedding c1), <- (ascii_nat_embedding c2),
    <- (ascii_nat_embedding c3).
  remember (nat_of_ascii c1) as n1 eqn:E1.
  remember (nat_of_ascii c2) as n2 eqn:E2.
  remember (nat_of_ascii c3) as n3 eqn:E3.
  clear E1 E2 E3.
  decompose [and or] H; clear H; subst;
    try solve [in_white_space_characters].
  assert (Hn : (n3 = 128 \/ n3 = 129 \/ n3 = 130 \/ n3 = 131 \/ n3 = 132 \/
                n3 = 133 \/ n3 = 134 \/ n3 = 135 \/ n3 = 136 \/ n3 = 137 \/
                n3 = 138)%nat) by lia.
  decompose [or] Hn; subst; in_white_space_characters.
Qed.

(** [skip_white_space] removes one of the white space characters, and
    removes any of them. *)
Lemma skip_white_space_sound (s rest : string) :
  skip_white_space s = Some rest ->
  exists w, In w white_space_characters /\ s = w ++ rest.
Proof.
  destruct s as [|c1 r1]; [discriminate|]. cbn [skip_white_space].
  destruct (is_white_space c1) eqn:E1.
  { intros [= <-]. exists (String c1 "").
    split; [now apply is_white_space_in | reflexivity]. }
  destruct r1 as [|c2 r2]; [discriminate|].
  destruct (is_white_space2 c1 c2) eqn:E2.
  { intros [= <-]. exists (String c1 (String c2 "")).
    split; [now apply is_white_space2_in | reflexivity]. }
  destruct r2 as [|c3 r3]; [discriminate|].
  destruct (is_white_space3 c1 c2 c3) eqn:E3; [|discriminate].
  intros [= <-]. exists (String c1 (String c2 (String c3 ""))).
  split; [now apply is_white_space3_in | reflexivity].
Qed.

Lemma skip_white_space_complete (w rest : string) :
  In w white_space_characters ->
  skip_white_space (w ++ rest) = Some rest /\ (0 < String.length w)%nat.
Proof.
  cbv [white_space_characters map utf8 fold_right In]. intros H.
  repeat destruct H as [<- | H]; try contradiction;
    (split; [reflexivity | cbn; lia]).
Qed.

Lemma only_white_space_app (p s : string) :
  only_white_space p -> only_white_space s -> only_white_space (p ++ s).
Proof.
  induction 1 as [|w p Hw _ IH]; intros Hs; [exact Hs|].
  rewrite append_assoc. apply only_white_space_more; auto.
Qed.

(** [trimStart] removes a prefix of white space characters. *)
Lemma skip_white_spaces_prefix (fuel : nat) (s : string) :
  exists p, only_white_space p /\ s = p ++ skip_white_spaces fuel s.
Proof.
  revert s. induction fuel as [|fuel IH]; intros s; cbn [skip_white_spaces].
  - exists "". split; [constructor | reflexivity].
  - destruct (skip_white_space s) as [rest|] eqn:E.
    + apply skip_white_space_sound in E as (w & Hw & ->).
      destruct (IH rest) as (p & Hp & Hrest).
      exists (w ++ p). split; [now constructor|].
      now rewrite append_assoc, <- Hrest.
    + exists "". split; [constructor | reflexivity].
Qed.

Lemma skip_white_spaces_all (s : string) :
  only_white_space s ->
  forall fuel, (String.length s <= fuel)%nat -> skip_white_spaces fuel s = "".
Proof.
  induction 1 as [|w s Hw _ IH]; intros fuel Hf.
  - destruct fuel; reflexivity.
  - destruct (skip_white_space_complete w s Hw) as [Hskip Hlen].
    rewrite length_append in Hf.
    destruct fuel as [|fuel]; [lia|].
    cbn [skip_white_spaces]. rewrite Hskip. apply IH. lia.
Qed.

Lemma trimStart_empty_iff (u : string) :
  trimStart u = "" <-> only_white_space u.
Proof.
  unfold trimStart. split.
  - intros H. destruct (skip_white_spaces_prefix (String.length u) u)
      as (p & Hp & Hu).
    rewrite H, append_nil_r in Hu. now subst.
  - intros H. now apply skip_white_spaces_all.
Qed.

(** Trimming leaves nothing exactly of a text of white space only. *)
Lemma trim_empty_iff (u : string) : trim u = "" <-> only_white_space u.
Proof.
  unfold trim. split.
  - intros H.
    destruct (skip_white_spaces_prefix (String.length u) u) as (p & Hp & Hu).
    fold (trimStart u) in Hu. rewrite Hu.
    apply only_white_space_app; [exact Hp|].
    destruct (trimStart u) as [|c s] eqn:E; [constructor|].
    cbn [trimEnd] in H.
    destruct (all_white_space (String c s)) eqn:Ea; [|discriminate].
    apply trimStart_empty_iff. unfold all_white_space in Ea.
    now destruct (trimStart (String c s)).
  - intros H. apply trimStart_empty_iff in H. now rewrite H.
Qed.

(** C6. A click opens [googleDrive.url] in a new browsing context exactly
    when the record has a [googleDrive] object whose [url] is a string that
    is not empty once trimmed; in every other case the click does nothing.
    Trimming leaves the empty string exactly of the texts made of the white
    space characters and line terminators of the language. *)
Theorem handleClick_spec (file : MediaRecord) :
  (forall g u,
     googleDrive file = JVal g -> url g = JVal u -> trim u <> "" ->
     MediaCard.handleClick file =
       [MediaCard.WindowOpen u "_blank" "noopener,noreferrer"]) /\
  (~ (exists g u,
        googleDrive file = JVal g /\ url g = JVal u /\ trim u <> "") ->
     MediaCard.handleClick file = []) /\
  (forall u, trim u = "" <-> only_white_space u).
Proof.
  unfold MediaCard.handleClick, MediaCard.hasDriveUrl, MediaCard.drive_url.
  split; [|split].
  - intros g u Hg Hu Ht. rewrite Hg, Hu.
    apply trim_nonempty in Ht as Hne.
    apply String.eqb_neq in Ht, Hne. now rewrite Ht, Hne.
  - intros Hno.
    destruct (googleDrive file) as [| |g]; try reflexivity.
    destruct (url g) as [| |u] eqn:Hu; try reflexivity.
    destruct (u =? "")%string eqn:E1; [reflexivity|].
    destruct (trim u =? "")%string eqn:E2; [reflexivity|].
    exfalso. apply Hno. exists g, u. apply String.eqb_neq in E2. auto.
  - apply trim_empty_iff.
Qed.

Lemma handleClick_spec_witness :
  MediaCard.handleClick Examples.beach =
    [MediaCard.WindowOpen " https://drive.example/beach " "_blank"
       "noopener,noreferrer"].
Proof.
  apply (proj1 (handleClick_spec Examples.beach)
           {| url := JVal " https://drive.example/beach " |});
    [reflexivity | reflexivity | discriminate].
Defined.


(** ** Hover-driven frame cycling *)

Module Hover.
Import MediaCard.

Section Card.
Variable file : MediaRecord.
Hypothesis Hvideo : is_video_with_frames file = true.

Local Abbreviation len := (List.length (frames (thumbnails file))).
Local Abbreviation inv := (hover_inv file).

Lemma len_pos : (0 < len)%nat.
Proof.
  unfold len. unfold is_video_with_frames in Hvideo.
  apply andb_true_iff in Hvideo. now apply Nat.ltb_lt.
Qed.

Lemma inv_mount (fresh : positive) : inv (mount file fresh).
Proof.
  pose proof len_pos. unfold mount, effect, cleanup, inv, hover_inv. simpl.
  repeat split; try discriminate; try reflexivity; assumption.
Qed.

Lemma inv_enter (st : State) (fresh : positive) :
  inv st -> inv (setIsHovering file fresh true st).
Proof.
  destruct st as [cf hov ref ts]. unfold inv, hover_inv, setIsHovering. simpl.
  intros (Hlt & Hon & Hoff).
  destruct hov; simpl; [auto|].
  destruct (Hoff eq_refl) as [-> ->].
  unfold effect, cleanup. simpl. rewrite Hvideo.
  destruct ref as [h|]; simpl;
    (split; [exact Hlt|]; split; [eauto | discriminate]).
Qed.

Lemma inv_leave (st : State) (fresh : positive) :
  inv st -> inv (setIsHovering file fresh false st).
Proof.
  destruct st as [cf hov ref ts]. unfold inv, hover_inv, setIsHovering. simpl.
  intros (Hlt & Hon & Hoff). pose proof len_pos as Hp.
  destruct hov; simpl; [|auto].
  destruct (Hon eq_refl) as (h & -> & ->).
  unfold effect, cleanup. simpl.
  rewrite !Pos.eqb_refl. simpl.
  split; [exact Hp|]. split; [discriminate | auto].
Qed.

Lemma inv_tick (st : State) :
  inv st -> isHovering st = true -> inv (tick file st).
Proof.
  intros (Hlt & Hon & Hoff) Eh. pose proof len_pos as Hp.
  unfold inv, hover_inv, tick. simpl. fold len. split.
  - apply Nat.mod_upper_bound. lia.
  - split; [exact Hon|]. rewrite Eh. discriminate.
Qed.

(** An interval of the card only runs while the card is hovered. *)
Lemma tick_enabled_hovering (st : State) (h : positive) :
  inv st -> existsb (Pos.eqb h) (timers st) = true ->
  isHovering st = true.
Proof.
  intros (_ & _ & Hoff) Hex.
  destruct (isHovering st); [reflexivity|].
  destruct (Hoff eq_refl) as [Ht _]. rewrite Ht in Hex. discriminate.
Qed.

Lemma inv_dispatch (st st' : State) (e : Event) :
  inv st -> dispatch file st e = Some st' -> inv st'.
Proof.
  intros Hinv. destruct e as [fresh| |h]; simpl.
  - intros [= <-]. now apply inv_enter.
  - intros [= <-]. now apply inv_leave.
  - destruct (existsb (Pos.eqb h) (timers st)) eqn:Hex; [|discriminate].
    intros [= <-]. apply inv_tick; [assumption|].
    now apply tick_enabled_hovering with h.
Qed.

Lemma inv_reachable (st : State) : reachable file st -> inv st.
Proof.
  induction 1 as [fresh | st e st' _ IH Hd].
  - apply inv_mount.
  - now apply inv_dispatch with st e.
Qed.

End Card.
End Hover.

(** ** Frame cycling, render by render *)

Module Renders.
Import Render.

(** Once the effect has run, a state change followed by its effect is the
    step of [MediaCard.setIsHovering]. *)
Lemma setIsHovering_settled file (b : bool) (c : Card) :
  effect_pending c = false ->
  state (run_effects file (setIsHovering file b c)) =
    MediaCard.setIsHovering file (nextHandle c) b (state c).
Proof.
  intros Hp. unfold setIsHovering, MediaCard.setIsHovering.
  destruct (Bool.eqb (MediaCard.isHovering (state c)) b).
  - unfold run_effects. now rewrite Hp.
  - unfold run_effects at 1. cbn [effect_pending state nextHandle].
    unfold run_effects. rewrite Hp. reflexivity.
Qed.

Lemma settled_run_effects file (c : Card) :
  effect_pending (run_effects file c) = false.
Proof.
  unfold run_effects. destruct (effect_pending c) eqn:E; [reflexivity|exact E].
Qed.

Lemma hovered_run_effects file (c : Card) :
  hovered (run_effects file c) = hovered c.
Proof.
  destruct c as [[cf hov ref ts] p nx].
  unfold run_effects, hovered, MediaCard.effect, MediaCard.cleanup.
  destruct p; [|reflexivity]. cbn.
  destruct ref as [h|]; cbn;
    destruct (hov && MediaCard.is_video_with_frames file); reflexivity.
Qed.

Lemma hovered_setIsHovering file (b : bool) (c : Card) :
  hovered (setIsHovering file b c) = b.
Proof.
  unfold setIsHovering.
  destruct (Bool.eqb (MediaCard.isHovering (state c)) b) eqn:E.
  - now apply Bool.eqb_prop in E.
  - reflexivity.
Qed.

Lemma pending_setIsHovering file (b : bool) (c : Card) :
  hovered c = negb b -> effect_pending (setIsHovering file b c) = true.
Proof.
  unfold setIsHovering, hovered. intros ->.
  now destruct b.
Qed.

Section Card.
Variable file : MediaRecord.
Hypothesis Hvideo : MediaCard.is_video_with_frames file = true.

Local Abbreviation len := (List.length (frames (thumbnails file))).
Local Abbreviation inv := (invariant file).

Lemma invariant_first_render (handle : positive) : inv (first_render handle).
Proof.
  pose proof (Hover.len_pos file Hvideo) as Hp.
  unfold invariant, first_render, shown_frame, hovered. cbn.
  repeat split; try discriminate; auto.
Qed.

Lemma invariant_run_effects (c : Card) : inv c -> inv (run_effects file c).
Proof.
  destruct c as [[cf hov ref ts] p nx].
  unfold invariant, run_effects, shown_frame, hovered. cbn.
  intros (Hlt & Hone & Hon & Hoff & Hnew).
  pose proof (Hover.len_pos file Hvideo) as Hp.
  destruct p; cbn; [|auto 6].
  unfold MediaCard.effect, MediaCard.cleanup. cbn.
  destruct hov.
  - destruct (Hnew eq_refl eq_refl) as [-> ->].
    destruct ref as [h|]; cbn; rewrite Hvideo; cbn;
      (split; [exact Hp|]); (split; [right; eauto|]);
      (split; [eauto|]); split; discriminate.
  - destruct Hone as [-> | (h & -> & ->)].
    + destruct ref as [h|]; cbn;
        (split; [exact Hp|]); (split; [left; reflexivity|]);
        (split; [discriminate|]); (split; [auto|discriminate]).
    + cbn. rewrite !Pos.eqb_refl. cbn.
      (split; [exact Hp|]); (split; [left; reflexivity|]);
        (split; [discriminate|]); (split; [auto|discriminate]).
Qed.

Lemma invariant_setIsHovering (b : bool) (c : Card) :
  inv c -> inv (setIsHovering file b c).
Proof.
  intros Hinv. unfold setIsHovering.
  destruct (Bool.eqb (MediaCard.isHovering (state c)) b) eqn:E;
    [exact Hinv|].
  pose proof (invariant_run_effects c Hinv) as (Hlt & Hone & Hon & Hoff & _).
  pose proof (settled_run_effects file c) as Hs.
  pose proof (hovered_run_effects file c) as Hh.
  apply Bool.eqb_false_iff in E.
  unfold invariant, shown_frame, hovered in *. cbn.
  split; [exact Hlt|]. split; [exact Hone|].
  split; [discriminate|]. split; [discriminate|].
  intros _ ->. apply (Hoff Hs). rewrite Hh.
  now destruct (MediaCard.isHovering (state c)).
Qed.

Lemma invariant_interval_callback (c : Card) (h : positive) :
  inv c -> existsb (Pos.eqb h) (MediaCard.timers (state c)) = true ->
  inv (interval_callback file c).
Proof.
  intros Hinv Hex. unfold interval_callback. apply invariant_run_effects.
  destruct Hinv as (Hlt & Hone & Hon & Hoff & Hnew).
  pose proof (Hover.len_pos file Hvideo) as Hp.
  unfold invariant, shown_frame, hovered in *. cbn.
  split; [apply Nat.mod_upper_bound; lia|].
  split; [exact Hone|]. split; [exact Hon|].
  split; intros Hs Hh.
  - destruct (Hoff Hs Hh) as [Ht _]. rewrite Ht in Hex. discriminate.
  - destruct (Hnew Hs Hh) as [Ht _]. rewrite Ht in Hex. discriminate.
Qed.

Lemma invariant_dispatch (c c' : Card) (e : Event) :
  inv c -> dispatch file c e = Some c' -> inv c'.
Proof.
  intros Hinv. destruct e as [| |h|]; cbn [dispatch].
  - intros [= <-]. now apply invariant_setIsHovering.
  - intros [= <-]. now apply invariant_setIsHovering.
  - destruct (existsb (Pos.eqb h) (MediaCard.timers (state c))) eqn:Hex;
      [|discriminate].
    intros [= <-]. now apply invariant_interval_callback with h.
  - destruct (effect_pending c); [|discriminate].
    intros [= <-]. now apply invariant_run_effects.
Qed.

Lemma invariant_reachable (c : Card) : reachable file c -> inv c.
Proof.
  induction 1 as [handle | c e c' _ IH Hd].
  - apply invariant_first_render.
  - now apply invariant_dispatch with c e.
Qed.

(** A callback of the interval of a hovered card, its effect run, shows
    the next frame and leaves the interval running. *)
Lemma callback_hovered (c : Card) (h : positive) :
  effect_pending c = false -> MediaCard.timers (state c) = [h] ->
  dispatch file c (Tick h) = Some (interval_callback file c) /\
  effect_pending (interval_callback file c) = false /\
  hovered (interval_callback file c) = hovered c /\
  MediaCard.timers (state (interval_callback file c)) = [h] /\
  shown_frame (interval_callback file c) = ((shown_frame c + 1) mod len)%nat.
Proof.
  intros Hs Ht. cbn [dispatch]. rewrite Ht. cbn [existsb].
  rewrite Pos.eqb_refl. cbn [orb].
  unfold interval_callback, run_effects. cbn [effect_pending].
  rewrite Hs. cbn. auto.
Qed.

(** [n] callbacks advance the index by [n], modulo the number of frames. *)
Lemma run_ticks (n : nat) (c : Card) (h : positive) :
  effect_pending c = false -> MediaCard.timers (state c) = [h] ->
  (shown_frame c < len)%nat ->
  exists c',
    run file c (repeat (Tick h) n) = Some c' /\
    shown_frame c' = ((shown_frame c + n) mod len)%nat /\
    hovered c' = hovered c /\ effect_pending c' = false /\
    MediaCard.timers (state c') = [h].
Proof.
  pose proof (Hover.len_pos file Hvideo) as Hp.
  revert c. induction n as [|n IH]; intros c Hs Ht Hlt.
  - exists c. cbn [repeat run].
    rewrite Nat.add_0_r, Nat.mod_small by exact Hlt. auto.
  - destruct (callback_hovered c h Hs Ht) as (Hd & Hs' & Hh' & Ht' & Hc').
    destruct (IH _ Hs' Ht') as (c' & Hrun & Hcf & Hhov & Hp' & Htm).
    { rewrite Hc'. apply Nat.mod_upper_bound. lia. }
    exists c'. cbn [repeat run]. rewrite Hd. split; [exact Hrun|].
    split; [|split; [congruence|auto]].
    rewrite Hcf, Hc'. rewrite Nat.Div0.add_mod_idemp_l. f_equal. lia.
Qed.

(** Entering a card that is not hovered, and the effect of that render:
    the first frame, with one interval. *)
Lemma enter_effects (c : Card) :
  inv c -> hovered c = false ->
  exists c1 h,
    run file c [MouseEnter; Effects] = Some c1 /\
    effect_pending c1 = false /\ hovered c1 = true /\
    MediaCard.timers (state c1) = [h] /\ shown_frame c1 = O.
Proof.
  intros Hinv Hh.
  pose proof (invariant_setIsHovering true c Hinv) as Hinv1.
  pose proof (hovered_setIsHovering file true c) as Hh1.
  pose proof (pending_setIsHovering file true c Hh) as Hp1.
  pose proof (invariant_run_effects _ Hinv1) as (_ & _ & Hon & _ & _).
  destruct Hinv1 as (_ & _ & _ & _ & Hnew).
  destruct (Hnew Hp1 Hh1) as [Ht Hc].
  pose proof (settled_run_effects file (setIsHovering file true c)) as Hs2.
  pose proof (hovered_run_effects file (setIsHovering file true c)) as Hh2.
  rewrite Hh1 in Hh2.
  destruct (Hon Hs2 Hh2) as (h & _ & Ht2).
  exists (run_effects file (setIsHovering file true c)), h.
  cbn [run dispatch]. rewrite Hp1.
  split; [reflexivity|]. split; [exact Hs2|]. split; [exact Hh2|].
  split; [exact Ht2|].
  revert Hc Hp1 Hh1. generalize (setIsHovering file true c).
  intros [[cf hov ref ts] p nx]. unfold shown_frame, hovered, run_effects.
  cbn. intros -> -> ->. unfold MediaCard.effect, MediaCard.cleanup. cbn.
  destruct ref; cbn; rewrite Hvideo; reflexivity.
Qed.

Lemma run_reachable (es : list Event) (c c' : Card) :
  reachable file c -> run file c es = Some c' -> reachable file c'.
Proof.
  revert c. induction es as [|e es IH]; intros c Hr; cbn [run].
  - now intros [= <-].
  - destruct (dispatch file c e) as [c1|] eqn:Hd; [|discriminate].
    apply IH. now apply reachable_step with c e.
Qed.

End Card.
End Renders.

(** C5 (corrected). For a video with at least one frame, render by render:
    the frame index shown is always a valid index into [frames]; a card not
    hovered whose effect has run shows frame [0] and runs no interval, and
    for any card not hovered the effect that is due brings it there; a
    hovered card whose effect has run has one interval, each callback of
    which shows the next frame, wrapping to [0] after the last one; a card
    just rendered as hovered shows frame [0]; after the pointer entered and
    the effect ran, [n] callbacks show frame [n mod frames.length]; and the
    render made when the pointer leaves still shows the frame shown
    before, its effect being due. *)
Theorem frame_cycling_renders (file : MediaRecord) :
  type file = "video" -> frames (thumbnails file) <> [] ->
  let len := List.length (frames (thumbnails file)) in
  (forall c, Render.reachable file c -> (Render.shown_frame c < len)%nat) /\
  (forall c, Render.reachable file c ->
     Render.hovered c = false -> Render.effect_pending c = false ->
     Render.shown_frame c = O /\
     MediaCard.timers (Render.state c) = []) /\
  (forall c, Render.reachable file c -> Render.hovered c = false ->
     Render.hovered (Render.run_effects file c) = false /\
     Render.shown_frame (Render.run_effects file c) = O /\
     MediaCard.timers (Render.state (Render.run_effects file c)) = []) /\
  (forall c, Render.reachable file c ->
     Render.hovered c = true -> Render.effect_pending c = false ->
     exists h c',
       MediaCard.timers (Render.state c) = [h] /\
       Render.dispatch file c (Render.Tick h) = Some c' /\
       Render.hovered c' = true /\ Render.effect_pending c' = false /\
       Render.shown_frame c' = ((Render.shown_frame c + 1) mod len)%nat) /\
  (forall c, Render.reachable file c ->
     Render.hovered c = true -> Render.effect_pending c = true ->
     Render.shown_frame c = O) /\
  (forall c n, Render.reachable file c -> Render.hovered c = false ->
     exists h c',
       Render.run file c
         (Render.MouseEnter :: Render.Effects :: repeat (Render.Tick h) n)
         = Some c' /\
       Render.hovered c' = true /\
       Render.shown_frame c' = (n mod len)%nat) /\
  (forall c, Render.reachable file c ->
     Render.hovered c = true -> Render.effect_pending c = false ->
     exists c',
       Render.dispatch file c Render.MouseLeave = Some c' /\
       Render.hovered c' = false /\ Render.effect_pending c' = true /\
       Render.shown_frame c' = Render.shown_frame c).
Proof.
  intros Ht Hf len.
  assert (Hvideo : MediaCard.is_video_with_frames file = true)
    by (apply is_video_with_frames_true; auto).
  repeat match goal with |- _ /\ _ => split end.
  - intros c Hr. now destruct (Renders.invariant_reachable file Hvideo c Hr).
  - intros c Hr Hh Hs.
    destruct (Renders.invariant_reachable file Hvideo c Hr) as (_ & _ & _ & Hoff & _).
    destruct (Hoff Hs Hh). auto.
  - intros c Hr Hh.
    pose proof (Renders.invariant_reachable file Hvideo c Hr) as Hinv.
    apply Renders.invariant_run_effects in Hinv; [|exact Hvideo].
    destruct Hinv as (_ & _ & _ & Hoff & _).
    pose proof (Renders.hovered_run_effects file c) as Hh'.
    rewrite Hh in Hh'. split; [exact Hh'|].
    destruct (Hoff (Renders.settled_run_effects file c) Hh'). auto.
  - intros c Hr Hh Hs.
    destruct (Renders.invariant_reachable file Hvideo c Hr) as (_ & _ & Hon & _ & _).
    destruct (Hon Hs Hh) as (h & _ & Htm).
    destruct (Renders.callback_hovered file c h Hs Htm)
      as (Hd & Hs' & Hh' & _ & Hc').
    exists h, (Render.interval_callback file c).
    split; [exact Htm|]. split; [exact Hd|]. split; [congruence|].
    split; [exact Hs'|exact Hc'].
  - intros c Hr Hh Hs.
    destruct (Renders.invariant_reachable file Hvideo c Hr) as (_ & _ & _ & _ & Hnew).
    now destruct (Hnew Hs Hh).
  - intros c n Hr Hh.
    pose proof (Renders.invariant_reachable file Hvideo c Hr) as Hinv.
    destruct (Renders.enter_effects file Hvideo c Hinv Hh)
      as (c1 & h & Hrun & Hs1 & Hh1 & Ht1 & Hc1).
    destruct (Renders.run_ticks file Hvideo n c1 h Hs1 Ht1)
      as (c' & Hrun' & Hcf & Hhov & _).
    { rewrite Hc1. now apply Hover.len_pos. }
    exists h, c'. split.
    + change (Render.MouseEnter :: Render.Effects :: repeat (Render.Tick h) n)
        with ([Render.MouseEnter; Render.Effects] ++ repeat (Render.Tick h) n)%list.
      revert Hrun Hrun'. cbn [Render.run app].
      destruct (Render.dispatch file c Render.MouseEnter) as [a|]; [|discriminate].
      destruct (Render.dispatch file a Render.Effects) as [a'|]; [|discriminate].
      now intros [= ->].
    + split; [congruence|]. now rewrite Hcf, Hc1.
  - intros c Hr Hh Hs.
    exists (Render.setIsHovering file false c).
    split; [reflexivity|].
    split; [apply Renders.hovered_setIsHovering|].
    split; [apply Renders.pending_setIsHovering; exact Hh|].
    unfold Render.setIsHovering, Render.hovered in *. rewrite Hh. cbn.
    unfold Render.run_effects. rewrite Hs. reflexivity.
Qed.

Lemma frame_cycling_renders_witness :
  exists h c',
    Render.run Examples.clip (Render.first_render 1)
      (Render.MouseEnter :: Render.Effects :: repeat (Render.Tick h) 4)
      = Some c' /\
    Render.hovered c' = true /\
    Render.shown_frame c' = 1%nat.
Proof.
  destruct (frame_cycling_renders Examples.clip eq_refl ltac:(discriminate))
    as (_ & _ & _ & _ & _ & Hcycle & _).
  apply (Hcycle (Render.first_render 1) 4%nat).
  - apply Render.reachable_first.
  - reflexivity.
Defined.

(** C5, the render after the pointer left.  The pointer enters the card of
    a video with three frames, one callback of the interval shows the second
    frame, and the pointer leaves: the card is rendered as not hovered and
    still shows the second frame, until the effect of that render runs. *)
Lemma second_frame_shown_after_leaving :
  exists c,
    Render.reachable Examples.clip c /\
    Render.hovered c = false /\
    Render.shown_frame c = 1%nat /\
    MediaCard.render_thumbnail Examples.clip (Render.shown_frame c) =
      MediaCard.Img "/frames/clip_1.jpg" "clip.mp4".
Proof.
  eexists. split.
  - apply (Renders.run_reachable Examples.clip
             [Render.Effects; Render.MouseEnter; Render.Effects;
              Render.Tick 2; Render.MouseLeave]
             (Render.first_render 1)).
    + apply Render.reachable_first.
    + vm_compute. reflexivity.
  - vm_compute. auto.
Qed.


(** ** Calendar arithmetic *)

Module Calendar.

Lemma digit_value_digit (v : Z) :
  0 <= v < 10 -> digit_value (digit v) = Some v.
Proof.
  intros Hv.
  assert (Hc : v = 0 \/ v = 1 \/ v = 2 \/ v = 3 \/ v = 4 \/ v = 5 \/
               v = 6 \/ v = 7 \/ v = 8 \/ v = 9) by lia.
  repeat (destruct Hc as [-> | Hc]; [reflexivity|]). subst. reflexivity.
Qed.

(** Reading back [w] printed digits. *)
Lemma take_digits_fixed (w : nat) (acc n : Z) (rest : string) :
  take_digits w acc (fixed_digits w n ++ rest) =
    Some (acc * 10 ^ Z.of_nat w + n mod 10 ^ Z.of_nat w, rest).
Proof.
  revert acc. induction w as [|w IH]; intros acc.
  - simpl. rewrite Z.mod_1_r. do 2 f_equal. lia.
  - cbn [fixed_digits take_digits append].
    rewrite digit_value_digit by (apply Z.mod_pos_bound; lia).
    rewrite IH. do 2 f_equal.
    rewrite Nat2Z.inj_succ, Z.pow_succ_r by lia.
    set (p := 10 ^ Z.of_nat w).
    assert (Hp : 0 < p) by (apply Z.pow_pos_nonneg; lia).
    rewrite (Z.mul_comm 10 p), Z.rem_mul_r by lia. lia.
Qed.

(** *** Years *)

Lemma DaysInYear (y : Z) :
  DayFromYear (y + 1) - DayFromYear y = 365 + leap_day y.
Proof.
  unfold DayFromYear, leap_day, InLeapYear.
  destruct (y mod 4 =? 0) eqn:E4; destruct (y mod 100 =? 0) eqn:E100;
    destruct (y mod 400 =? 0) eqn:E400; cbn [andb orb negb];
    rewrite ?Z.eqb_eq, ?Z.eqb_neq in *;
    Z.div_mod_to_equations; lia.
Qed.

Lemma YearFromDay_spec (d : Z) :
  DayFromYear (YearFromDay d) <= d < DayFromYear (YearFromDay d + 1).
Proof.
  unfold YearFromDay. cbv zeta.
  set (y0 := 1970 + 400 * d / 146097).
  destruct (d <? DayFromYear y0) eqn:E1;
    [apply Z.ltb_lt in E1 | apply Z.ltb_ge in E1].
  - replace (y0 - 1 + 1) with y0 by lia. split; [|exact E1].
    subst y0. unfold DayFromYear in *. Z.div_mod_to_equations. lia.
  - destruct (DayFromYear (y0 + 1) <=? d) eqn:E2;
      [apply Z.leb_le in E2 | apply Z.leb_gt in E2].
    + split; [exact E2|].
      subst y0. unfold DayFromYear in *. Z.div_mod_to_equations. lia.
    + split; assumption.
Qed.

Lemma DayWithinYear_range (d : Z) :
  0 <= DayWithinYear d < 365 + leap_day (YearFromDay d).
Proof.
  unfold DayWithinYear. pose proof (YearFromDay_spec d).
  pose proof (DaysInYear (YearFromDay d)). lia.
Qed.

Lemma leap_day_range (y : Z) : leap_day y = 0 \/ leap_day y = 1.
Proof. unfold leap_day. destruct (InLeapYear y); auto. Qed.

(** Time values span one hundred million days on either side of the
    epoch; the years are those the year field can print. *)
Lemma YearFromDay_range (d : Z) :
  - 100000000 <= d <= 100000000 ->
  - 271821 <= YearFromDay d <= 275760.
Proof.
  intros Hd. pose proof (YearFromDay_spec d) as Hy.
  set (y := YearFromDay d) in *.
  split.
  - assert (- 100000000 < DayFromYear (y + 1)) by lia.
    unfold DayFromYear in *. Z.div_mod_to_equations. lia.
  - assert (DayFromYear y <= 100000000) by lia.
    unfold DayFromYear in *. Z.div_mod_to_equations. lia.
Qed.

(** *** Months and days of the month *)

Lemma MonthFromDay_spec (d : Z) :
  let leap := leap_day (YearFromDay d) in
  0 <= MonthFromDay d <= 11 /\
  month_start (MonthFromDay d) leap <= DayWithinYear d
    < month_start (MonthFromDay d + 1) leap.
Proof.
  intros leap. pose proof (DayWithinYear_range d) as Hw.
  fold leap in Hw. pose proof (leap_day_range (YearFromDay d)) as Hl.
  fold leap in Hl. unfold MonthFromDay. fold leap.
  set (w := DayWithinYear d) in *. clearbody w leap.
  destruct Hl as [-> | ->];
    repeat match goal with
           | |- context [?a <? ?b] => destruct (Z.ltb_spec a b)
           end;
    unfold month_start; simpl in *; lia.
Qed.

Lemma DateFromDay_range (d : Z) :
  1 <= DateFromDay d <=
    days_in_month (MonthFromDay d) (leap_day (YearFromDay d)).
Proof.
  pose proof (MonthFromDay_spec d) as [_ Hm]. cbv zeta in Hm.
  unfold DateFromDay, days_in_month. lia.
Qed.

Lemma DateFromDay_two_digits (d : Z) : 1 <= DateFromDay d < 100.
Proof.
  pose proof (DateFromDay_range d) as Hd.
  pose proof (MonthFromDay_spec d) as [Hm _].
  pose proof (leap_day_range (YearFromDay d)) as Hl.
  unfold days_in_month in Hd.
  set (m := MonthFromDay d) in *. set (l := leap_day _) in *.
  assert (Hc : m = 0 \/ m = 1 \/ m = 2 \/ m = 3 \/ m = 4 \/ m = 5 \/
               m = 6 \/ m = 7 \/ m = 8 \/ m = 9 \/ m = 10 \/ m = 11)
    by lia.
  revert Hd. clearbody m l.
  destruct Hl as [-> | ->];
    repeat (destruct Hc as [-> | Hc]; [unfold month_start; simpl; lia|]);
    subst; unfold month_start; simpl; lia.
Qed.

(** The day is recovered from its year, month and day of the month. *)
Lemma MakeDay_inverse (d : Z) :
  MakeDay (YearFromDay d) (MonthFromDay d) (DateFromDay d) = d.
Proof. unfold MakeDay, DateFromDay, DayWithinYear. lia. Qed.

(** *** Reading a printed date *)

Lemma parse_year_digit (c : ascii) (s : string) (v : Z) :
  digit_value c = Some v ->
  parse_year (String c s) = take_digits 4 0 (String c s).
Proof.
  destruct c as [[] [] [] [] [] [] [] []]; intros Hv;
    try reflexivity; vm_compute in Hv; discriminate.
Qed.

Lemma parse_year_string (y : Z) (rest : string) :
  - 271821 <= y <= 275760 ->
  parse_year (year_string y ++ rest) = Some (y, rest).
Proof.
  intros Hy. unfold year_string.
  destruct ((0 <=? y) && (y <=? 9999)) eqn:E.
  - apply andb_true_iff in E. destruct E as [E1 E2].
    apply Z.leb_le in E1, E2.
    change (fixed_digits 4 y) with
      (String (digit ((y / 10 ^ 3) mod 10)) (fixed_digits 3 y)).
    cbn [append].
    rewrite (parse_year_digit _ _ ((y / 10 ^ 3) mod 10))
      by (apply digit_value_digit, Z.mod_pos_bound; lia).
    change (String (digit ((y / 10 ^ 3) mod 10)) (fixed_digits 3 y ++ rest))
      with (fixed_digits 4 y ++ rest).
    rewrite take_digits_fixed. do 2 f_equal.
    change (10 ^ Z.of_nat 4) with 10000. rewrite Z.mod_small; lia.
  - apply andb_false_iff in E.
    destruct (0 <=? y) eqn:E0.
    + apply Z.leb_le in E0. destruct E as [E | E]; [discriminate|].
      apply Z.leb_gt in E. cbn [append parse_year].
      rewrite take_digits_fixed. do 2 f_equal.
      change (10 ^ Z.of_nat 6) with 1000000.
      rewrite Z.abs_eq, Z.mod_small; lia.
    + apply Z.leb_gt in E0. cbn [append parse_year].
      rewrite take_digits_fixed.
      change (10 ^ Z.of_nat 6) with 1000000.
      rewrite Z.abs_neq, Z.mod_small by lia.
      replace (0 * 1000000 + - y =? 0) with false
        by (symmetry; apply Z.eqb_neq; lia).
      do 2 f_equal. lia.
Qed.

(** Parsing the printed date of a day gives the midnight of that day. *)
Lemma Date_parse_iso_date_string (d : Z) :
  - 100000000 <= d <= 100000000 ->
  Date_parse_iso (date_string d) = Some (d * msPerDay).
Proof.
  intros Hd. pose proof (YearFromDay_range d Hd) as Hy.
  pose proof (MonthFromDay_spec d) as [Hm _].
  pose proof (DateFromDay_range d) as Hdate.
  pose proof (DateFromDay_two_digits d) as Hdd.
  unfold Date_parse_iso, date_string.
  rewrite parse_year_string by exact Hy.
  cbn [append expect Ascii.eqb Bool.eqb].
  rewrite take_digits_fixed. cbn [append expect Ascii.eqb Bool.eqb].
  rewrite <- (append_nil_r (fixed_digits 2 (DateFromDay d))).
  rewrite take_digits_fixed.
  change (10 ^ Z.of_nat 2) with 100.
  rewrite !Z.mod_small by lia.
  replace (0 * 100 + (MonthFromDay d + 1) - 1) with (MonthFromDay d) by lia.
  replace (0 * 100 + DateFromDay d) with (DateFromDay d) by lia.
  replace (0 * 100 + (MonthFromDay d + 1)) with (MonthFromDay d + 1) by lia.
  replace ((1 <=? MonthFromDay d + 1) && (MonthFromDay d + 1 <=? 12)
           && (1 <=? DateFromDay d)
           && (DateFromDay d <=?
               days_in_month (MonthFromDay d) (leap_day (YearFromDay d))))
    with true.
  - now rewrite MakeDay_inverse.
  - symmetry. rewrite !andb_true_iff, !Z.leb_le. lia.
Qed.

End Calendar.


(** ** The names of the date groups *)

Module Keys.

Lemma all_chars_app p (a b : string) :
  all_chars p (a ++ b) = all_chars p a && all_chars p b.
Proof.
  induction a as [|c a IH]; simpl; [reflexivity|].
  now rewrite IH, andb_assoc.
Qed.

Lemma date_char_digit (v : Z) : 0 <= v < 10 -> date_char (digit v) = true.
Proof.
  intros Hv. unfold date_char. now rewrite Calendar.digit_value_digit.
Qed.

Lemma all_chars_fixed_digits (w : nat) (n : Z) :
  all_chars date_char (fixed_digits w n) = true.
Proof.
  induction w as [|w IH]; [reflexivity|].
  cbn [fixed_digits all_chars].
  rewrite IH, date_char_digit; [reflexivity|].
  apply Z.mod_pos_bound. lia.
Qed.

Lemma all_chars_date_string (d : Z) :
  all_chars date_char (date_string d) = true.
Proof.
  unfold date_string, year_string.
  rewrite !all_chars_app, !all_chars_fixed_digits.
  destruct ((0 <=? YearFromDay d) && (YearFromDay d <=? 9999)).
  - now rewrite all_chars_fixed_digits.
  - cbn [all_chars]. rewrite all_chars_fixed_digits.
    destruct (0 <=? YearFromDay d); reflexivity.
Qed.

Lemma date_string_not_unknown (d : Z) : date_string d <> App.unknown_date.
Proof.
  intros E. pose proof (all_chars_date_string d) as Hc.
  rewrite E in Hc. discriminate.
Qed.

Lemma date_char_not_T (c : ascii) :
  date_char c = true -> Ascii.eqb c "T" = false.
Proof.
  destruct c as [[] [] [] [] [] [] [] []]; intros Hc;
    try reflexivity; vm_compute in Hc; discriminate.
Qed.

(** Splitting at the first separator. *)
Lemma split_first (a b : string) :
  all_chars date_char a = true ->
  split "T" (a ++ String "T" b) = a :: split "T" b.
Proof.
  induction a as [|c a IH]; intros Ha.
  - reflexivity.
  - simpl in Ha. apply andb_true_iff in Ha. destruct Ha as [Hc Ha].
    cbn [append split]. rewrite (date_char_not_T c Hc), (IH Ha).
    reflexivity.
Qed.

(** The part of the ISO text before the [T] is the printed date. *)
Lemma toISOString_date (t : Z) :
  hd EmptyString (split "T" (toISOString t)) = date_string (Day t).
Proof.
  unfold toISOString.
  change (date_string (Day t) ++ "T" ++ ?r)
    with (date_string (Day t) ++ String "T" r).
  now rewrite split_first by apply all_chars_date_string.
Qed.

Lemma read_digits_dash (a b : string) (acc : Z) :
  App.read_digits acc (a ++ String "-" b) = None.
Proof.
  revert acc. induction a as [|c a IH]; intros acc.
  - reflexivity.
  - cbn [append App.read_digits].
    destruct (digit_value c); [apply IH | reflexivity].
Qed.

(** No group name is an array index. *)
Lemma group_key_not_index (key : string) :
  group_key key -> App.is_array_index key = false.
Proof.
  intros [-> | (d & _ & ->)]; [reflexivity|].
  unfold App.is_array_index, App.array_index, date_string.
  change (year_string (YearFromDay d) ++ "-" ++ ?r)
    with (year_string (YearFromDay d) ++ String "-" r).
  rewrite read_digits_dash.
  now destruct (year_string (YearFromDay d) ++ _).
Qed.

Lemma Day_in_range (t : Z) :
  Z.abs t <= maxTime -> day_in_range (Day t).
Proof.
  unfold maxTime, day_in_range, Day, msPerDay. intros Ht.
  Z.div_mod_to_equations. lia.
Qed.

Lemma TimeClip_Some (t t' : Z) :
  TimeClip t = Some t' -> t' = t /\ Z.abs t <= maxTime.
Proof.
  unfold TimeClip. destruct (Z.leb_spec (Z.abs t) maxTime);
    [intros [= <-]; auto | discriminate].
Qed.

Lemma TimeClip_midnight (d : Z) :
  day_in_range d -> TimeClip (d * msPerDay) = Some (d * msPerDay).
Proof.
  unfold day_in_range, TimeClip, maxTime, msPerDay. intros Hd.
  destruct (Z.leb_spec (Z.abs (d * 86400000)) 8640000000000000);
    [reflexivity | lia].
Qed.

Section WithHost.
Context `{Host}.

(** A valid date is within the range of time values. *)
Lemma new_Date_range (v : nullable DateValue) (t : Z) :
  new_Date v = Some t -> Z.abs t <= maxTime.
Proof.
  destruct v as [| |[s|n]]; simpl.
  - intros [= <-]. unfold maxTime. lia.
  - discriminate.
  - unfold Date_parse.
    destruct (Date_parse_iso s) as [t0|];
      [|destruct (Date_parse_legacy s) as [t0|]; [|discriminate]];
      intros Hc; apply TimeClip_Some in Hc; destruct Hc as [-> Hc];
      exact Hc.
  - intros Hc. apply TimeClip_Some in Hc. now destruct Hc as [-> Hc].
Qed.

(** The group of a file is named by the UTC day of its creation date,
    or is the group of unknown dates when the date is not valid. *)
Lemma dateKey_spec (file : MediaRecord) :
  App.dateKey file =
    match new_Date (creationDate (metadata file)) with
    | Some t => date_string (Day t)
    | None => App.unknown_date
    end.
Proof.
  unfold App.dateKey.
  destruct (new_Date (creationDate (metadata file)));
    [apply toISOString_date | reflexivity].
Qed.

Lemma dateKey_group_key (file : MediaRecord) :
  group_key (App.dateKey file).
Proof.
  rewrite dateKey_spec.
  destruct (new_Date (creationDate (metadata file))) as [t|] eqn:E;
    [right | now left].
  exists (Day t). split; [|reflexivity].
  apply Day_in_range. now apply new_Date_range with (creationDate (metadata file)).
Qed.

(** A group name that is a date parses back to the midnight of its
    day. *)
Lemma new_Date_date_string (d : Z) :
  day_in_range d ->
  new_Date (JVal (DateString (date_string d))) = Some (d * msPerDay).
Proof.
  intros Hd. simpl. unfold Date_parse.
  rewrite Calendar.Date_parse_iso_date_string by exact Hd.
  now apply TimeClip_midnight.
Qed.

Lemma key_rank_unknown : key_rank App.unknown_date = - 100000001.
Proof. reflexivity. Qed.

Lemma key_rank_date (d : Z) :
  day_in_range d -> key_rank (date_string d) = d.
Proof.
  intros Hd. unfold key_rank.
  rewrite (proj2 (String.eqb_neq _ _) (date_string_not_unknown d)).
  rewrite Calendar.Date_parse_iso_date_string by exact Hd.
  unfold Day, msPerDay. now rewrite Z.div_mul.
Qed.

Lemma key_rank_inj (a b : string) :
  group_key a -> group_key b -> key_rank a = key_rank b -> a = b.
Proof.
  intros [-> | (da & Ha & ->)] [-> | (db & Hb & ->)];
    rewrite ?key_rank_unknown, ?key_rank_date by assumption;
    unfold day_in_range in *; intros E; try lia; congruence.
Qed.

(** The comparator places a group after another exactly when its rank
    is lower. *)
Lemma compare_keys_rank (a b : string) :
  group_key a -> group_key b -> a <> b ->
  (App.goes_after App.compare_keys a b = true <->
   key_rank a < key_rank b).
Proof.
  unfold App.goes_after, App.compare_keys.
  intros [-> | (da & Ha & ->)] [-> | (db & Hb & ->)] Hne.
  - contradiction.
  - rewrite key_rank_unknown, key_rank_date by assumption.
    cbn. unfold day_in_range in Hb. split; [lia | reflexivity].
  - rewrite key_rank_unknown, key_rank_date by assumption.
    rewrite (proj2 (String.eqb_neq _ _) (date_string_not_unknown da)).
    cbn. unfold day_in_range in Ha. split; [discriminate | lia].
  - rewrite !key_rank_date by assumption.
    rewrite (proj2 (String.eqb_neq _ _) (date_string_not_unknown da)).
    rewrite (proj2 (String.eqb_neq _ _) (date_string_not_unknown db)).
    rewrite !new_Date_date_string by assumption.
    rewrite Z.ltb_lt. unfold msPerDay. lia.
Qed.

End WithHost.

End Keys.


(** ** Dictionaries, sorting and grouping *)

Module Grouping.
Import App.

Section Objects.
Context {V : Type}.
Implicit Types (o : Obj V) (key : string) (v : V).

Lemma get_set_eq o key v : get (set o key v) key = Some v.
Proof.
  induction o as [|[k' v'] o IH]; simpl.
  - now rewrite String.eqb_refl.
  - destruct (k' =? key)%string eqn:E; simpl; rewrite E; auto.
Qed.

Lemma get_set_ne o key key' v :
  key <> key' -> get (set o key v) key' = get o key'.
Proof.
  intros Hne. induction o as [|[k' v'] o IH]; simpl.
  - now rewrite (proj2 (String.eqb_neq _ _) Hne).
  - destruct (k' =? key)%string eqn:E; simpl.
    + apply String.eqb_eq in E. subst k'.
      now rewrite (proj2 (String.eqb_neq _ _) Hne).
    + now rewrite IH.
Qed.

Lemma get_None o key : get o key = None <-> ~ In key (map fst o).
Proof.
  induction o as [|[k' v'] o IH]; simpl; [tauto|].
  destruct (k' =? key)%string eqn:E.
  - apply String.eqb_eq in E. split; [discriminate | tauto].
  - apply String.eqb_neq in E. rewrite IH. tauto.
Qed.

(** Assigning to a missing property appends it. *)
Lemma set_absent o key v :
  get o key = None -> set o key v = (o ++ [(key, v)])%list.
Proof.
  induction o as [|[k' v'] o IH]; simpl; [reflexivity|].
  destruct (k' =? key)%string; [discriminate|].
  intros Hn. now rewrite IH.
Qed.

(** Assigning to an existing property keeps the property names. *)
Lemma keys_set_present o key v v0 :
  get o key = Some v0 -> map fst (set o key v) = map fst o.
Proof.
  induction o as [|[k' v'] o IH]; simpl; [discriminate|].
  destruct (k' =? key)%string; simpl; [reflexivity|].
  intros Hn. now rewrite IH.
Qed.

(** Building an object from distinct names lists them in order. *)
Lemma fold_set_fresh (g : string -> V) (ks : list string) o :
  NoDup ks -> (forall k, In k ks -> ~ In k (map fst o)) ->
  fold_left (fun acc key => set acc key (g key)) ks o =
    (o ++ map (fun k => (k, g k)) ks)%list.
Proof.
  revert o. induction ks as [|k ks IH]; intros o Hnd Hfresh; simpl.
  - now rewrite app_nil_r.
  - inversion Hnd as [|? ? Hk Hnd']; subst.
    rewrite set_absent by (apply get_None, Hfresh; now left).
    rewrite IH; [now rewrite <- app_assoc | exact Hnd' |].
    intros k' Hk'. rewrite map_app, in_app_iff. simpl.
    intros [Hin | [-> | []]]; [|contradiction].
    apply (Hfresh k'); [now right | exact Hin].
Qed.

(** Without array indices among the names, enumeration follows the
    order of creation. *)
Lemma Object_entries_plain o :
  (forall k, In k (map fst o) -> is_array_index k = false) ->
  Object_entries o = o.
Proof.
  intros Hk. unfold Object_entries.
  assert (E : forall l : Obj V,
             (forall k, In k (map fst l) -> is_array_index k = false) ->
             filter (fun e => is_array_index (fst e)) l = [] /\
             filter (fun e => negb (is_array_index (fst e))) l = l).
  { induction l as [|[k v] l IH]; intros Hl; simpl; [auto|].
    rewrite (Hl k) by now left. simpl.
    destruct IH as [-> ->]; [|auto].
    intros k' Hk'. apply Hl. now right. }
  destruct (E o Hk) as [-> ->]. reflexivity.
Qed.
End Objects.

(** *** Sorting *)

Section Sorting.
Context {A : Type} (comparefn : A -> A -> option Z).

Lemma sort_insert_perm (x : A) (l : list A) :
  Permutation (sort_insert comparefn x l) (x :: l).
Proof.
  induction l as [|y l IH]; simpl; [reflexivity|].
  destruct (goes_after comparefn y x); [reflexivity|].
  rewrite IH. apply perm_swap.
Qed.

Lemma fold_sort_perm (l acc : list A) :
  Permutation
    (fold_left (fun acc x => sort_insert comparefn x acc) l acc)
    (acc ++ l).
Proof.
  revert acc. induction l as [|x l IH]; intros acc; simpl.
  - now rewrite app_nil_r.
  - rewrite IH, sort_insert_perm. apply Permutation_middle.
Qed.

Lemma Array_sort_perm (l : list A) :
  Permutation (Array_sort comparefn l) l.
Proof. unfold Array_sort. now rewrite fold_sort_perm. Qed.

(** A comparator that agrees with a rank on the distinct elements of a
    class sorts them by decreasing rank. *)
Variable rank : A -> Z.
Variable P : A -> Prop.
Hypothesis comparefn_rank :
  forall a b, P a -> P b -> a <> b ->
    (goes_after comparefn a b = true <-> rank a < rank b).

Local Abbreviation decreasing := (Spec.decreasing rank).

Lemma sort_insert_decreasing (x : A) (l : list A) :
  P x -> Forall P l -> ~ In x l -> decreasing l ->
  decreasing (sort_insert comparefn x l).
Proof.
  intros Hx. induction l as [|y l IH]; intros HP Hnin Hs; simpl.
  - constructor; constructor.
  - inversion HP as [|? ? Hy HP']; subst.
    apply StronglySorted_inv in Hs. destruct Hs as [Hs Hall].
    assert (Hyx : y <> x) by (intros ->; apply Hnin; now left).
    pose proof (comparefn_rank y x Hy Hx Hyx) as Hc.
    destruct (goes_after comparefn y x).
    + assert (rank y < rank x) by now apply Hc.
      constructor; [constructor; assumption|].
      constructor; [lia|].
      rewrite Forall_forall in *. intros z Hz. specialize (Hall z Hz). lia.
    + assert (~ rank y < rank x) by (intros Hlt; apply Hc in Hlt; discriminate).
      constructor.
      * apply IH; [assumption | | assumption].
        intros Hin. apply Hnin. now right.
      * rewrite Forall_forall in *. intros z Hz.
        apply (Permutation_in _ (sort_insert_perm x l)) in Hz.
        destruct Hz as [<- | Hz]; [lia | now apply Hall].
Qed.

Lemma fold_sort_decreasing (l acc : list A) :
  NoDup (acc ++ l) -> Forall P (acc ++ l) -> decreasing acc ->
  decreasing (fold_left (fun acc x => sort_insert comparefn x acc) l acc).
Proof.
  revert acc. induction l as [|x l IH]; intros acc Hnd HP Hs; simpl.
  - exact Hs.
  - assert (Hperm : Permutation (acc ++ x :: l)
                      (sort_insert comparefn x acc ++ l)).
    { rewrite sort_insert_perm. symmetry. apply Permutation_middle. }
    apply IH.
    + now apply (Permutation_NoDup Hperm).
    + now apply (Permutation_Forall Hperm).
    + apply sort_insert_decreasing.
      * rewrite Forall_forall in HP. apply HP.
        rewrite in_app_iff. right. now left.
      * rewrite Forall_app in HP. tauto.
      * apply NoDup_remove_2 in Hnd. rewrite in_app_iff in Hnd. tauto.
      * exact Hs.
Qed.

Lemma Array_sort_decreasing (l : list A) :
  NoDup l -> Forall P l -> decreasing (Array_sort comparefn l).
Proof.
  intros Hnd HP. unfold Array_sort.
  apply fold_sort_decreasing; [exact Hnd | exact HP | constructor].
Qed.

(** Distinct elements with distinct ranks are in strictly decreasing
    order. *)
Lemma decreasing_strict (l : list A) :
  (forall a b, P a -> P b -> rank a = rank b -> a = b) ->
  NoDup l -> Forall P l -> decreasing l ->
  StronglySorted (fun a b => rank a > rank b) l.
Proof.
  intros Hinj. induction l as [|x l IH]; intros Hnd HP Hs.
  - constructor.
  - inversion Hnd as [|? ? Hx Hnd']; subst.
    inversion HP as [|? ? Px HP']; subst.
    apply StronglySorted_inv in Hs. destruct Hs as [Hs Hall].
    constructor; [now apply IH|].
    rewrite Forall_forall in *. intros z Hz.
    specialize (Hall z Hz).
    assert (rank x <> rank z).
    { intros E. apply Hinj in E; [subst; contradiction | assumption |].
      now apply HP'. }
    lia.
Qed.
End Sorting.

End Grouping.


(** ** The groups that are rendered *)

Module Groups.
Import App Grouping.

Section WithHost.
Context `{Host}.

Lemma get_add_same acc file :
  get (add_to_group acc file) (dateKey file) =
    Some (group_of acc (dateKey file) ++ [file])%list.
Proof.
  unfold add_to_group, group_of. cbv zeta.
  destruct (get acc (dateKey file)) as [g|] eqn:E.
  - rewrite E. apply get_set_eq.
  - rewrite get_set_eq. apply get_set_eq.
Qed.

Lemma get_add_other acc file key :
  key <> dateKey file -> get (add_to_group acc file) key = get acc key.
Proof.
  intros Hne. unfold add_to_group. cbv zeta.
  destruct (get acc (dateKey file)) as [g|] eqn:E.
  - rewrite E. now apply get_set_ne.
  - rewrite get_set_eq. rewrite !get_set_ne by congruence. reflexivity.
Qed.

Lemma keys_add acc file :
  map fst (add_to_group acc file) =
    match get acc (dateKey file) with
    | Some _ => map fst acc
    | None => (map fst acc ++ [dateKey file])%list
    end.
Proof.
  unfold add_to_group. cbv zeta.
  destruct (get acc (dateKey file)) as [g|] eqn:E.
  - rewrite E. now apply keys_set_present with g.
  - rewrite get_set_eq.
    rewrite (keys_set_present _ _ _ [] (get_set_eq _ _ _)).
    rewrite set_absent by exact E. now rewrite map_app.
Qed.

(** The object built by the reducer: one property for each day that
    occurs, holding the files of that day in document order. *)
Lemma grouped_spec (l : list MediaRecord) :
  let grouped := fold_left add_to_group l [] in
  NoDup (map fst grouped) /\
  (forall key, In key (map fst grouped) <->
               exists file, In file l /\ dateKey file = key) /\
  (forall key, group_of grouped key = files_of_day key l).
Proof.
  induction l as [|x l IH] using rev_ind; cbv zeta.
  - simpl. split; [constructor|]. split; [|reflexivity].
    intros key. split; [intros [] | intros (f & [] & _)].
  - rewrite fold_left_app. simpl.
    destruct IH as (Hnd & Hkeys & Hgroups).
    set (grouped := fold_left add_to_group l []) in *.
    split; [|split].
    + rewrite keys_add.
      destruct (get grouped (dateKey x)) eqn:E; [exact Hnd|].
      apply get_None in E.
      apply (Permutation_NoDup (Permutation_cons_append _ _)).
      now constructor.
    + intros key. rewrite keys_add.
      assert (Hin : In key (map fst grouped) \/ key = dateKey x <->
                    exists file, In file (l ++ [x]) /\ dateKey file = key).
      { rewrite Hkeys. split.
        - intros [(f & Hf & Hk) | ->].
          + exists f. rewrite in_app_iff. auto.
          + exists x. rewrite in_app_iff. simpl. auto.
        - intros (f & Hf & Hk). rewrite in_app_iff in Hf.
          destruct Hf as [Hf | [<- | []]]; [left; eauto | right; auto]. }
      rewrite <- Hin.
      destruct (get grouped (dateKey x)) eqn:E.
      * split; [tauto|]. intros [Hk | ->]; [exact Hk|].
        destruct (in_dec string_dec (dateKey x) (map fst grouped))
          as [Hi | Hi]; [exact Hi|].
        apply get_None in Hi. congruence.
      * rewrite in_app_iff. simpl. intuition congruence.
    + intros key. unfold files_of_day. rewrite filter_app. simpl.
      fold (files_of_day key l). rewrite <- Hgroups.
      destruct (dateKey x =? key)%string eqn:E.
      * apply String.eqb_eq in E. subst key.
        unfold group_of at 1. now rewrite get_add_same.
      * apply String.eqb_neq in E. rewrite app_nil_r.
        unfold group_of. rewrite get_add_other by congruence.
        reflexivity.
Qed.

Lemma group_keys_are_keys (l : list MediaRecord) (key : string) :
  In key (map fst (fold_left add_to_group l [])) -> group_key key.
Proof.
  intros Hk. apply (proj1 (proj2 (grouped_spec l))) in Hk.
  destruct Hk as (f & _ & <-). apply Keys.dateKey_group_key.
Qed.

Lemma sorted_keys_spec (l : list MediaRecord) :
  NoDup (sorted_keys l) /\
  Forall group_key (sorted_keys l) /\
  (forall key, In key (sorted_keys l) <->
               exists file, In file l /\ dateKey file = key) /\
  StronglySorted (fun a b => key_rank a > key_rank b) (sorted_keys l).
Proof.
  destruct (grouped_spec l) as (Hnd & Hkeys & _). cbv zeta in *.
  unfold sorted_keys.
  set (keys := map fst (fold_left add_to_group l [])) in *.
  pose proof (Array_sort_perm compare_keys keys) as Hperm.
  assert (HP : Forall group_key keys).
  { apply Forall_forall. intros k Hk. now apply group_keys_are_keys with l. }
  assert (Hnd' : NoDup (Array_sort compare_keys keys))
    by (apply (Permutation_NoDup (Permutation_sym Hperm)); exact Hnd).
  assert (HP' : Forall group_key (Array_sort compare_keys keys))
    by (apply (Permutation_Forall (Permutation_sym Hperm)); exact HP).
  split; [exact Hnd'|]. split; [exact HP'|]. split.
  - intros key. rewrite <- Hkeys. split; apply Permutation_in;
      [exact Hperm | now symmetry].
  - apply decreasing_strict with (P := group_key).
    + apply Keys.key_rank_inj.
    + exact Hnd'.
    + exact HP'.
    + apply Array_sort_decreasing with (P := group_key);
        [apply Keys.compare_keys_rank | exact Hnd | exact HP].
Qed.

(** The rendered groups: the sorted names, each with its files. *)
Lemma displayed_groups_eq doc filterType searchQuery :
  let filtered := filtered_files doc filterType searchQuery in
  displayed_groups (Some doc) filterType searchQuery =
    map (fun key => (key, files_of_day key filtered))
      (sorted_keys filtered).
Proof.
  intros filtered. unfold displayed_groups, groupedByDate.
  fold filtered.
  destruct (grouped_spec filtered) as (Hnd & Hkeys & Hgroups).
  destruct (sorted_keys_spec filtered) as (Hnd' & HP' & _ & _).
  cbv zeta in *.
  set (grouped := fold_left add_to_group filtered []) in *.
  assert (Hk : Object_keys grouped = map fst grouped).
  { unfold Object_keys. rewrite Object_entries_plain; [reflexivity|].
    intros k Hin. apply Keys.group_key_not_index.
    now apply group_keys_are_keys with filtered. }
  rewrite Hk. fold (sorted_keys filtered).
  rewrite fold_set_fresh; [|exact Hnd' | intros k _ []].
  simpl. rewrite Object_entries_plain.
  - apply map_ext. intros k. now rewrite Hgroups.
  - intros k Hin. rewrite map_map in Hin. simpl in Hin.
    rewrite map_id in Hin. apply Keys.group_key_not_index.
    rewrite Forall_forall in HP'. now apply HP'.
Qed.

End WithHost.
End Groups.


(** ** Filtering *)

Module Filters.
Import App.

Lemma prefix_spec (q s : string) :
  prefix q s = true <-> exists post, s = q ++ post.
Proof.
  revert s. induction q as [|c q IH]; intros s.
  - split; [intros _; exists s; reflexivity | destruct s; reflexivity].
  - destruct s as [|c' s]; simpl;
      [split; [discriminate | intros (p & [=])]|].
    destruct (ascii_dec c c') as [<- | Hne].
    + rewrite IH. split; intros (post & E); exists post; congruence.
    + split; [discriminate | intros (p & [= E _]); congruence].
Qed.

(** [includes] decides whether the query occurs in the text. *)
Lemma includes_spec (s q : string) :
  includes s q = true <-> substring_of q s.
Proof.
  unfold substring_of. induction s as [|c s IH]; cbn [includes].
  - rewrite orb_false_r, prefix_spec. split.
    + intros (post & E). exists EmptyString, post. exact E.
    + intros ([|c pre] & post & E); [eauto | discriminate].
  - rewrite orb_true_iff, IH, prefix_spec. split.
    + intros [(post & E) | (pre & post & E)].
      * exists EmptyString, post. exact E.
      * exists (String c pre), post. simpl. now rewrite E.
    + intros ([|c' pre] & post & E).
      * left. exists post. exact E.
      * right. injection E as _ E. eauto.
Qed.

Lemma map_string_app f (a b : string) :
  map_string f (a ++ b) = map_string f a ++ map_string f b.
Proof. induction a as [|c a IH]; simpl; [reflexivity | now rewrite IH]. Qed.

Lemma map_string_split f (s a b : string) :
  map_string f s = a ++ b ->
  exists s1 s2, s = s1 ++ s2 /\ map_string f s1 = a /\ map_string f s2 = b.
Proof.
  revert s. induction a as [|c a IH]; intros s E; simpl in E.
  - exists EmptyString, s. auto.
  - destruct s as [|c' s]; [discriminate|]. simpl in E.
    injection E as Ec E. destruct (IH s E) as (s1 & s2 & -> & E1 & E2).
    exists (String c' s1), s2. simpl. now rewrite Ec, E1.
Qed.

(** When the case mapping works character by character, the lowered text
    contains the lowered query exactly when the text has a substring that
    equals the query up to case. *)
Lemma substring_of_map_string f (q s : string) :
  substring_of (map_string f q) (map_string f s) <-> substring_up_to f q s.
Proof.
  unfold substring_of, substring_up_to. split.
  - intros (pre & post & E).
    apply map_string_split in E. destruct E as (s1 & r & -> & E1 & E).
    apply map_string_split in E. destruct E as (s2 & s3 & -> & E2 & E3).
    exists s1, s2, s3. auto.
  - intros (pre & mid & post & -> & E).
    exists (map_string f pre), (map_string f post).
    now rewrite !map_string_app, E.
Qed.

Section WithHost.
Context `{Host}.

Lemma filter_by_type_In filterType l file :
  In file (filter_by_type filterType l) <->
  In file l /\ (filterType = "all" \/ type file = filterType).
Proof.
  unfold filter_by_type.
  destruct (filterType =? "all")%string eqn:E; simpl.
  - apply String.eqb_eq in E. tauto.
  - apply String.eqb_neq in E. rewrite filter_In, String.eqb_eq. tauto.
Qed.

Lemma filter_by_search_In searchQuery l file :
  In file (filter_by_search searchQuery l) <->
  In file l /\
  (searchQuery = "" \/
   substring_of (toLowerCase searchQuery) (toLowerCase (fileName file)) \/
   substring_of (toLowerCase searchQuery)
     (toLowerCase (relativePath file))).
Proof.
  unfold filter_by_search.
  destruct (searchQuery =? "")%string eqn:E; simpl.
  - apply String.eqb_eq in E. tauto.
  - apply String.eqb_neq in E. unfold matches_query.
    rewrite filter_In, orb_true_iff, !includes_spec. tauto.
Qed.

Lemma files_of_day_In key l file :
  In file (files_of_day key l) <-> In file l /\ dateKey file = key.
Proof. unfold files_of_day. now rewrite filter_In, String.eqb_eq. Qed.

(** A file is shown exactly when it passes both filters. *)
Lemma displayed_iff doc filterType searchQuery file :
  displayed file (displayed_groups (Some doc) filterType searchQuery) <->
  In file (filtered_files doc filterType searchQuery).
Proof.
  rewrite Groups.displayed_groups_eq. cbv zeta.
  set (filtered := filtered_files doc filterType searchQuery).
  destruct (Groups.sorted_keys_spec filtered) as (_ & _ & Hkeys & _).
  unfold displayed. split.
  - intros (key & group & Hin & Hf).
    apply in_map_iff in Hin. destruct Hin as (k & [= <- <-] & _).
    now apply files_of_day_In in Hf.
  - intros Hf. exists (dateKey file), (files_of_day (dateKey file) filtered).
    split.
    + apply in_map_iff. exists (dateKey file). split; [reflexivity|].
      apply Hkeys. eauto.
    + apply files_of_day_In. auto.
Qed.

(** The groups of distinct days partition the files. *)
Lemma groups_partition (keys : list string) (l : list MediaRecord) :
  NoDup keys ->
  Permutation
    (List.concat (map (fun key => files_of_day key l) keys))
    (filter (fun file => existsb (String.eqb (dateKey file)) keys) l).
Proof.
  induction keys as [|k keys IH]; intros Hnd; simpl.
  - induction l; simpl; auto.
  - inversion Hnd as [|? ? Hk Hnd']; subst.
    rewrite (IH Hnd'). clear IH.
    induction l as [|f l IHl]; simpl; [constructor|].
    unfold files_of_day in *. simpl.
    destruct (dateKey f =? k)%string eqn:E; simpl.
    + assert (Hex : existsb (String.eqb (dateKey f)) keys = false).
      { apply String.eqb_eq in E. subst k.
        destruct (existsb (String.eqb (dateKey f)) keys) eqn:Ex;
          [|reflexivity].
        apply existsb_exists in Ex. destruct Ex as (k' & Hin & Ek).
        apply String.eqb_eq in Ek. subst k'. contradiction. }
      rewrite Hex. now constructor.
    + destruct (existsb (String.eqb (dateKey f)) keys); [|exact IHl].
      rewrite <- Permutation_middle. now constructor.
Qed.

Lemma displayed_files_perm doc filterType searchQuery :
  Permutation
    (List.concat (map snd (displayed_groups (Some doc) filterType searchQuery)))
    (filtered_files doc filterType searchQuery).
Proof.
  rewrite Groups.displayed_groups_eq. cbv zeta.
  set (filtered := filtered_files doc filterType searchQuery).
  destruct (Groups.sorted_keys_spec filtered) as (Hnd & _ & Hkeys & _).
  rewrite map_map. simpl.
  rewrite (groups_partition _ filtered Hnd).
  assert (E : forall l : list MediaRecord,
             (forall f, In f l -> In (dateKey f) (sorted_keys filtered)) ->
             filter (fun file =>
               existsb (String.eqb (dateKey file)) (sorted_keys filtered)) l
             = l).
  { induction l as [|f l IHl]; intros Hl; simpl; [reflexivity|].
    assert (Hex : existsb (String.eqb (dateKey f)) (sorted_keys filtered)
                  = true).
    { apply existsb_exists. exists (dateKey f).
      split; [apply Hl; now left | apply String.eqb_refl]. }
    rewrite Hex, IHl; [reflexivity|]. intros f' Hf'. apply Hl. now right. }
  rewrite E; [reflexivity|]. intros f Hf. apply Hkeys. eauto.
Qed.

End WithHost.
End Filters.


(** ** The order of the groups *)

Module Order.
Import App.

Section WithHost.
Context `{Host}.

Lemma key_rank_lower_bound (key : string) :
  group_key key -> - 100000001 <= key_rank key.
Proof.
  intros [-> | (d & Hd & ->)].
  - rewrite Keys.key_rank_unknown. lia.
  - rewrite Keys.key_rank_date by exact Hd. unfold day_in_range in Hd. lia.
Qed.

(** Names in strictly decreasing rank are the dates of strictly
    decreasing days, followed by the group of unknown dates if there is
    one. *)
Lemma keys_shape (keys : list string) :
  Forall group_key keys ->
  StronglySorted (fun a b => key_rank a > key_rank b) keys ->
  exists days,
    Forall day_in_range days /\
    StronglySorted Z.gt days /\
    keys = (map date_string days ++
            if existsb (String.eqb unknown_date) keys
            then [unknown_date] else [])%list.
Proof.
  induction keys as [|k keys IH]; intros HP Hs.
  - exists []. repeat split; constructor.
  - inversion HP as [|? ? Hk HP']; subst.
    apply StronglySorted_inv in Hs. destruct Hs as [Hs Hall].
    destruct (IH HP' Hs) as (days & Hrange & Hdays & Hkeys).
    rewrite Forall_forall in Hall, HP'.
    destruct Hk as [-> | (d & Hd & ->)].
    + assert (keys = []) as ->.
      { destruct keys as [|z keys]; [reflexivity|]. exfalso.
        specialize (Hall z (or_introl eq_refl)).
        pose proof (key_rank_lower_bound z (HP' z (or_introl eq_refl))).
        rewrite Keys.key_rank_unknown in Hall. lia. }
      exists []. repeat split; constructor.
    + exists (d :: days). split; [now constructor|]. split.
      * constructor; [exact Hdays|].
        rewrite Forall_forall in *. intros d' Hd'.
        assert (Hin : In (date_string d') keys).
        { rewrite Hkeys, in_app_iff. left. now apply in_map. }
        specialize (Hall _ Hin).
        rewrite !Keys.key_rank_date in Hall by auto. lia.
      * cbn [existsb map app].
        assert (E : (unknown_date =? date_string d)%string = false).
        { apply String.eqb_neq. intros E.
          now apply (Keys.date_string_not_unknown d). }
        rewrite E. cbn [orb]. f_equal. exact Hkeys.
Qed.

Lemma dateKey_unknown (file : MediaRecord) :
  dateKey file = unknown_date <-> no_valid_date file = true.
Proof.
  rewrite Keys.dateKey_spec. unfold no_valid_date.
  destruct (new_Date (creationDate (metadata file))) as [t|].
  - split; [|discriminate]. intros E.
    now apply Keys.date_string_not_unknown in E.
  - tauto.
Qed.

(** There is a group of unknown dates exactly when some file has no
    valid date. *)
Lemma unknown_group_present (l : list MediaRecord) :
  existsb (String.eqb unknown_date) (sorted_keys l) =
  existsb no_valid_date l.
Proof.
  destruct (Groups.sorted_keys_spec l) as (_ & _ & Hkeys & _).
  apply eq_true_iff_eq.
  rewrite !existsb_exists. split.
  - intros (k & Hin & E). apply String.eqb_eq in E. subst k.
    apply Hkeys in Hin. destruct Hin as (f & Hf & Hk).
    exists f. split; [exact Hf | now apply dateKey_unknown].
  - intros (f & Hf & Hn). exists unknown_date.
    split; [|apply String.eqb_refl].
    apply Hkeys. exists f. split; [exact Hf | now apply dateKey_unknown].
Qed.

End WithHost.
End Order.

(** ** The grid *)

(** The printed date determines the day, for the days a time value can
    fall on. *)
Lemma date_string_inj (d d' : Z) :
  day_in_range d -> day_in_range d' ->
  date_string d = date_string d' -> d = d'.
Proof.
  intros Hd Hd' E.
  rewrite <- (Keys.key_rank_date d Hd), <- (Keys.key_rank_date d' Hd').
  now rewrite E.
Qed.

(** C1. The files that pass the filters are grouped by the UTC calendar
    day of [metadata.creationDate]: a file with a valid date belongs to the
    group named by the ISO date of that day, a file whose date is not valid
    to the group ['unknown-date'].  Every rendered group is non-empty and
    holds exactly the filtered files of its day, in document order; every
    filtered file is in the group of its day; no day has two groups.  The
    names of the rendered groups are the ISO dates of a strictly decreasing
    list of days, which are exactly the days of the filtered files with a
    valid date (all within the range of time values, where the ISO date
    determines the day), followed by the group of unknown dates when some
    filtered file has no valid date. *)
Theorem groups_by_day_descending `{Host} (doc : IndexDocument)
    (filterType searchQuery : string) :
  let filtered := App.filtered_files doc filterType searchQuery in
  let groups := App.displayed_groups (Some doc) filterType searchQuery in
  (forall file,
     App.dateKey file =
       match new_Date (creationDate (metadata file)) with
       | Some t => date_string (Day t)
       | None => "unknown-date"
       end) /\
  (forall key group, In (key, group) groups ->
     group <> [] /\
     group = filter (fun file => (App.dateKey file =? key)%string) filtered) /\
  (forall file, In file filtered ->
     exists group, In (App.dateKey file, group) groups /\ In file group) /\
  NoDup (map fst groups) /\
  exists days,
    StronglySorted Z.gt days /\
    Forall (fun d => - 100000000 <= d <= 100000000) days /\
    (forall d, In d days <->
       exists file t,
         In file filtered /\
         new_Date (creationDate (metadata file)) = Some t /\ Day t = d) /\
    (forall d d', In d days -> In d' days ->
       date_string d = date_string d' -> d = d') /\
    map fst groups =
      (map date_string days ++
       if existsb no_valid_date filtered then ["unknown-date"] else [])%list.
Proof.
  intros filtered groups.
  assert (Hg : groups =
               map (fun key => (key, files_of_day key filtered))
                 (sorted_keys filtered))
    by apply Groups.displayed_groups_eq.
  destruct (Groups.sorted_keys_spec filtered) as (Hnd & HP & Hkeys & Hs).
  assert (Hfst : map fst groups = sorted_keys filtered).
  { rewrite Hg, map_map. simpl. apply map_id. }
  split; [apply Keys.dateKey_spec|].
  split; [|split; [|split]].
  - intros key group Hin. rewrite Hg in Hin.
    apply in_map_iff in Hin. destruct Hin as (k & [= <- <-] & Hk).
    split; [|reflexivity].
    apply Hkeys in Hk. destruct Hk as (f & Hf & Ek).
    intros E.
    assert (Hin : In f (files_of_day k filtered))
      by (apply Filters.files_of_day_In; auto).
    rewrite E in Hin. contradiction.
  - intros file Hf. exists (files_of_day (App.dateKey file) filtered). split.
    + rewrite Hg. apply in_map_iff. exists (App.dateKey file).
      split; [reflexivity|]. apply Hkeys. eauto.
    + apply Filters.files_of_day_In. auto.
  - now rewrite Hfst.
  - destruct (Order.keys_shape _ HP Hs) as (days & Hrange & Hdays & Hshape).
    exists days. split; [exact Hdays|]. split; [exact Hrange|].
    rewrite Forall_forall in Hrange.
    split; [|split].
    + intros d. split.
      * intros Hd.
        assert (Hk : In (date_string d) (sorted_keys filtered)).
        { rewrite Hshape, in_app_iff. left. now apply in_map. }
        apply Hkeys in Hk. destruct Hk as (f & Hf & E).
        rewrite Keys.dateKey_spec in E.
        destruct (new_Date (creationDate (metadata f))) as [t|] eqn:Et.
        -- exists f, t. split; [exact Hf|]. split; [exact Et|].
           apply date_string_inj; [|now apply Hrange | exact E].
           apply Keys.Day_in_range. now apply Keys.new_Date_range in Et.
        -- symmetry in E. now apply Keys.date_string_not_unknown in E.
      * intros (f & t & Hf & Et & <-).
        assert (Hk : In (App.dateKey f) (sorted_keys filtered))
          by (apply Hkeys; eauto).
        rewrite Keys.dateKey_spec, Et in Hk.
        rewrite Hshape, in_app_iff in Hk. destruct Hk as [Hk | Hk].
        -- apply in_map_iff in Hk. destruct Hk as (d' & E & Hd').
           assert (d' = Day t) as <-; [|exact Hd'].
           apply date_string_inj; [now apply Hrange | | exact E].
           apply Keys.Day_in_range. now apply Keys.new_Date_range in Et.
        -- exfalso. destruct (existsb _ _); [|contradiction].
           destruct Hk as [Hk | []].
           symmetry in Hk. now apply Keys.date_string_not_unknown in Hk.
    + intros d d' Hd Hd'. apply date_string_inj; now apply Hrange.
    + rewrite Hfst. rewrite Order.unknown_group_present in Hshape.
      exact Hshape.
Qed.

Lemma groups_by_day_descending_witness :
  exists group,
    In (@App.dateKey Examples.ascii_host Examples.clip, group)
       (@App.displayed_groups Examples.ascii_host (Some Examples.sample)
          "all" "") /\
    In Examples.clip group.
Proof.
  destruct (@groups_by_day_descending Examples.ascii_host Examples.sample
              "all" "") as (_ & _ & Hin & _).
  apply Hin. right. left. reflexivity.
Defined.

(** C2. With the filter [image], [video] or [audio] selected, the files
    kept by the type filter are exactly the files of the document whose
    [type] is the selected one, and with no search text these are exactly the
    files shown; with the filter [all] every file is kept and shown. *)
Theorem type_filter_exact `{Host} (doc : IndexDocument) (filterType : string)
    (file : MediaRecord) :
  (In filterType ["image"; "video"; "audio"] ->
     (In file (App.filter_by_type filterType (files doc)) <->
      In file (files doc) /\ type file = filterType) /\
     (displayed file (App.displayed_groups (Some doc) filterType "") <->
      In file (files doc) /\ type file = filterType)) /\
  App.filter_by_type "all" (files doc) = files doc /\
  (displayed file (App.displayed_groups (Some doc) "all" "") <->
   In file (files doc)).
Proof.
  split; [|split].
  - intros Hf.
    assert (Hne : filterType <> "all")
      by (simpl in Hf; intros ->; intuition discriminate).
    assert (E : In file (App.filter_by_type filterType (files doc)) <->
                In file (files doc) /\ type file = filterType).
    { rewrite Filters.filter_by_type_In. tauto. }
    split; [exact E|].
    rewrite Filters.displayed_iff. unfold App.filtered_files.
    rewrite Filters.filter_by_search_In, E. tauto.
  - reflexivity.
  - rewrite Filters.displayed_iff. unfold App.filtered_files.
    rewrite Filters.filter_by_search_In, Filters.filter_by_type_In. tauto.
Qed.

Lemma type_filter_exact_witness :
  displayed Examples.clip
    (@App.displayed_groups Examples.ascii_host (Some Examples.sample)
       "video" "").
Proof.
  destruct (@type_filter_exact Examples.ascii_host Examples.sample "video"
              Examples.clip) as (Hsel & _ & _).
  destruct Hsel as [_ Hshown]; [right; left; reflexivity|].
  apply Hshown. split; [right; left; reflexivity | reflexivity].
Defined.

(** C3. For a search text that is not empty, the files kept by the search
    are exactly those whose lower-cased [fileName] or lower-cased
    [relativePath] contains the lower-cased text, and with the type filter
    [all] these are exactly the files shown; an empty search text keeps
    every file. *)
Theorem search_filter_exact `{Host} (doc : IndexDocument)
    (searchQuery : string) (file : MediaRecord) :
  (searchQuery <> "" ->
     (In file (App.filter_by_search searchQuery (files doc)) <->
      In file (files doc) /\
      (substring_of (toLowerCase searchQuery) (toLowerCase (fileName file)) \/
       substring_of (toLowerCase searchQuery)
         (toLowerCase (relativePath file)))) /\
     (displayed file (App.displayed_groups (Some doc) "all" searchQuery) <->
      In file (files doc) /\
      (substring_of (toLowerCase searchQuery) (toLowerCase (fileName file)) \/
       substring_of (toLowerCase searchQuery)
         (toLowerCase (relativePath file))))) /\
  App.filter_by_search "" (files doc) = files doc /\
  (displayed file (App.displayed_groups (Some doc) "all" "") <->
   In file (files doc)).
Proof.
  split; [|split].
  - intros Hne.
    assert (E : In file (App.filter_by_search searchQuery (files doc)) <->
                In file (files doc) /\
                (substring_of (toLowerCase searchQuery)
                   (toLowerCase (fileName file)) \/
                 substring_of (toLowerCase searchQuery)
                   (toLowerCase (relativePath file)))).
    { rewrite Filters.filter_by_search_In. tauto. }
    split; [exact E|].
    rewrite Filters.displayed_iff. unfold App.filtered_files.
    change (App.filter_by_type "all" (files doc)) with (files doc).
    exact E.
  - reflexivity.
  - rewrite Filters.displayed_iff. unfold App.filtered_files.
    rewrite Filters.filter_by_search_In, Filters.filter_by_type_In. tauto.
Qed.

Lemma search_filter_exact_witness :
  displayed Examples.beach
    (@App.displayed_groups Examples.ascii_host (Some Examples.sample)
       "all" "BEACH").
Proof.
  destruct (@search_filter_exact Examples.ascii_host Examples.sample "BEACH"
              Examples.beach) as (Hsearch & _ & _).
  destruct Hsearch as [_ Hshown]; [discriminate|].
  apply Hshown. split; [left; reflexivity|].
  left. exists EmptyString, ".jpg". reflexivity.
Defined.

(** ** The header *)

Lemma fold_sum_lengths {A : Type} (groups : list (list A)) (sum : Z) :
  fold_left (fun sum files => sum + Z.of_nat (List.length files)) groups sum
  = sum + Z.of_nat (List.length (List.concat groups)).
Proof.
  revert sum. induction groups as [|g groups IH]; intros sum; simpl.
  - lia.
  - rewrite IH, length_app. lia.
Qed.

(** C10. When the document has no [metadata], or its [metadata] has no
    [stats], the header shows zero images, zero videos and zero audio files.
    The total shown in the header is the sum of the sizes of the rendered
    groups, which is the number of files that pass the filters. *)
Theorem header_counts `{Host} (doc : IndexDocument)
    (filterType searchQuery : string) :
  ((doc_metadata doc = JNull \/ doc_metadata doc = JUndefined \/
    exists m, doc_metadata doc = JVal m /\
              (stats m = JNull \/ stats m = JUndefined)) ->
   App.header_stats doc = {| images := 0; videos := 0; audio := 0 |}) /\
  App.totalFiles doc filterType searchQuery =
    fold_right Z.add 0
      (map (fun g => Z.of_nat (List.length (snd g)))
         (App.displayed_groups (Some doc) filterType searchQuery)) /\
  App.totalFiles doc filterType searchQuery =
    Z.of_nat (List.length (App.filtered_files doc filterType searchQuery)).
Proof.
  assert (Ht : App.totalFiles doc filterType searchQuery =
               Z.of_nat (List.length (List.concat (map snd
                 (App.displayed_groups (Some doc) filterType searchQuery))))).
  { unfold App.totalFiles, App.Object_values.
    rewrite fold_sum_lengths. reflexivity. }
  split; [|split].
  - unfold App.header_stats.
    intros [-> | [-> | (m & -> & [-> | ->])]]; reflexivity.
  - rewrite Ht. unfold App.displayed_groups.
    induction (App.Object_entries _) as [|g gs IH]; simpl; [reflexivity|].
    rewrite length_app. lia.
  - rewrite Ht. f_equal. apply Permutation_length.
    apply Filters.displayed_files_perm.
Qed.

Lemma header_counts_witness :
  @App.header_stats Examples.sample =
    {| images := 0; videos := 0; audio := 0 |}.
Proof.
  apply (proj1 (@header_counts Examples.ascii_host Examples.sample "all" "")).
  right. left. reflexivity.
Defined.



(** ** Evaluation on concrete inputs *)

Example formatDuration_values :
  map MediaCard.formatDuration
    [JNull; JVal 0%Q; JVal (1 # 2); JVal 59%Q; JVal (251 # 2);
     JVal 3600%Q; JVal 3725%Q; JVal 360000%Q]
  = [""; ""; "0:00"; "0:59"; "2:05"; "1:00:00"; "1:02:05"; "100:00:00"].
Proof. vm_compute. reflexivity. Qed.

Example formatFileSize_values :
  map MediaCard.formatFileSize
    [0; 1; 1023; 1024; 1536; 1234567; 1024 ^ 3; 1024 ^ 4 - 1; 1024 ^ 4]
  = ["0 B"; "1 B"; "1023 B"; "1 KB"; "1.5 KB"; "1.18 MB"; "1 GB";
     "1024 GB"; "1 undefined"].
Proof. vm_compute. reflexivity. Qed.

Example toISOString_values :
  map toISOString [0; 1682942400123; - 1; maxTime; - maxTime]
  = ["1970-01-01T00:00:00.000Z"; "2023-05-01T12:00:00.123Z";
     "1969-12-31T23:59:59.999Z"; "+275760-09-13T00:00:00.000Z";
     "-271821-04-20T00:00:00.000Z"].
Proof. vm_compute. reflexivity. Qed.

Example Date_parse_iso_values :
  map Date_parse_iso
    ["2023-05-01"; "2023-05-01T12:00:00.123Z"; "2024-02-29"; "2023-02-29";
     "May 1, 2023"]
  = [Some 1682899200000; Some 1682942400123; Some 1709164800000; None; None].
Proof. vm_compute. reflexivity. Qed.

Example Object_keys_order :
  App.Object_keys [("b", 1); ("10", 2); ("2", 3); ("a", 4); ("01", 5)]
  = ["2"; "10"; "b"; "a"; "01"].
Proof. vm_compute. reflexivity. Qed.

Example sample_groups :
  @App.displayed_groups Examples.ascii_host (Some Examples.sample) "all" ""
  = [("2024-01-02", [Examples.clip]);
     ("2023-05-01", [Examples.beach; Examples.sunset]);
     ("unknown-date", [Examples.memo])].
Proof. vm_compute. reflexivity. Qed.

Example sample_search :
  map fst
    (@App.displayed_groups Examples.ascii_host (Some Examples.sample)
       "image" "trip/S")
  = ["2023-05-01"] /\
  @App.totalFiles Examples.ascii_host Examples.sample "image" "trip/S" = 1.
Proof. vm_compute. split; reflexivity. Qed.

(** [new Date(null)] is the epoch: a record whose [creationDate] is [null]
    is grouped under the first day of 1970. *)
Example null_creationDate_key :
  @App.dateKey Examples.ascii_host
    (Examples.record "x.jpg" "image" JNull [] JNull) = "1970-01-01".
Proof. vm_compute. reflexivity. Qed.

Example sample_clicks :
  map MediaCard.handleClick
    [Examples.beach; Examples.sunset; Examples.memo; Examples.clip]
  = [[MediaCard.WindowOpen " https://drive.example/beach " "_blank"
        "noopener,noreferrer"]; []; []; []].
Proof. vm_compute. reflexivity. Qed.

Example sample_hover :
  option_map MediaCard.currentFrame
    (MediaCard.run Examples.clip (MediaCard.mount Examples.clip 1)
       [MediaCard.MouseEnter 5; MediaCard.Tick 5; MediaCard.Tick 5;
        MediaCard.Tick 5; MediaCard.Tick 5; MediaCard.MouseLeave])
  = Some 0%nat /\
  option_map MediaCard.currentFrame
    (MediaCard.run Examples.clip (MediaCard.mount Examples.clip 1)
       [MediaCard.MouseEnter 5; MediaCard.Tick 5; MediaCard.Tick 5;
        MediaCard.Tick 5; MediaCard.Tick 5])
  = Some 1%nat /\
  MediaCard.run Examples.clip (MediaCard.mount Examples.clip 1)
    [MediaCard.MouseEnter 5; MediaCard.MouseLeave; MediaCard.Tick 5] = None.
Proof. vm_compute. repeat split; reflexivity. Qed.

(** The same card, render by render: the render made when the pointer
    leaves shows the frame shown before, and the effect of that render
    shows the first frame and stops the interval. *)
Example sample_renders :
  option_map (fun c => (Render.hovered c, Render.shown_frame c))
    (Render.run Examples.clip (Render.first_render 1)
       [Render.MouseEnter; Render.Effects; Render.Tick 2; Render.Tick 2;
        Render.MouseLeave])
  = Some (false, 2%nat) /\
  option_map (fun c => (Render.shown_frame c, MediaCard.timers (Render.state c)))
    (Render.run Examples.clip (Render.first_render 1)
       [Render.MouseEnter; Render.Effects; Render.Tick 2; Render.Tick 2;
        Render.MouseLeave; Render.Effects])
  = Some (0%nat, []) /\
  option_map Render.shown_frame
    (Render.run Examples.clip (Render.first_render 1)
       [Render.MouseEnter; Render.Effects; Render.Tick 2; Render.Tick 2;
        Render.MouseLeave; Render.Tick 2])
  = Some 0%nat /\
  Render.run Examples.clip (Render.first_render 1)
    [Render.MouseEnter; Render.Tick 2] = None.
Proof. vm_compute. repeat split; reflexivity. Qed.

(** Trimming: a no-break space, an ideographic space and a line feed are
    white space, a zero width space (U+200B) is not; a link made of a
    no-break space opens nothing. *)
Example trim_values :
  trim (utf8 [32; 9; 194; 160; 97; 32; 98; 227; 128; 128; 10]%nat) = "a b" /\
  trim (utf8 [194; 160; 226; 128; 168; 239; 187; 191]%nat) = "" /\
  trim (utf8 [226; 128; 139]%nat) = utf8 [226; 128; 139]%nat /\
  MediaCard.handleClick
    (Examples.record "x.jpg" "image" JNull []
       (JVal {| url := JVal (utf8 [194; 160]%nat) |})) = [].
Proof. vm_compute. repeat split; reflexivity. Qed.


(* ================================================================== *)
(** * Part III: further properties of the components *)
(* ================================================================== *)

(** ** Cards that do not cycle *)

Module Idle.
Import MediaCard.

Section Card.
Variable file : MediaRecord.
Hypothesis Hplain : is_video_with_frames file = false.

Lemma idle_mount (fresh : positive) : idle (mount file fresh).
Proof.
  unfold mount, effect, cleanup, idle. simpl. auto.
Qed.

Lemma idle_setIsHovering (st : State) (fresh : positive) (b : bool) :
  idle st -> idle (setIsHovering file fresh b st).
Proof.
  destruct st as [cf hov ref ts]. unfold idle, setIsHovering. simpl.
  intros (-> & -> & ->).
  destruct (Bool.eqb hov b); simpl; [auto|].
  unfold effect, cleanup. simpl. rewrite Hplain, andb_false_r. simpl. auto.
Qed.

Lemma idle_dispatch (st st' : State) (e : Event) :
  idle st -> dispatch file st e = Some st' -> idle st'.
Proof.
  intros Hi. destruct e as [fresh| |h]; simpl.
  - intros [= <-]. now apply idle_setIsHovering.
  - intros [= <-]. now apply idle_setIsHovering.
  - destruct Hi as (Ht & _). rewrite Ht. discriminate.
Qed.

Lemma idle_reachable (st : State) : reachable file st -> idle st.
Proof.
  induction 1 as [fresh | st e st' _ IH Hd].
  - apply idle_mount.
  - now apply idle_dispatch with st e.
Qed.

End Card.
End Idle.

Lemma is_video_with_frames_false (file : MediaRecord) :
  type file <> "video" \/ frames (thumbnails file) = [] ->
  MediaCard.is_video_with_frames file = false.
Proof.
  intros Hno. destruct (MediaCard.is_video_with_frames file) eqn:E;
    [|reflexivity].
  apply is_video_with_frames_true in E. destruct E; destruct Hno; contradiction.
Qed.

(** X1. A card whose record is not a video, or is a video without frames,
    never starts an interval: in every state it can reach no interval runs,
    no interval callback can fire, the frame index is 0 and the thumbnail is
    [thumbnails.main], whether the card is hovered or not. *)
Theorem plain_card_never_cycles (file : MediaRecord) (st : MediaCard.State) :
  type file <> "video" \/ frames (thumbnails file) = [] ->
  MediaCard.reachable file st ->
  MediaCard.timers st = [] /\
  MediaCard.currentFrame st = O /\
  (forall h, MediaCard.dispatch file st (MediaCard.Tick h) = None) /\
  MediaCard.thumbnail file (MediaCard.currentFrame st) = main (thumbnails file) /\
  CardView.frame_indicator file st = None.
Proof.
  intros Hno Hr.
  pose proof (is_video_with_frames_false file Hno) as Hplain.
  destruct (Idle.idle_reachable file Hplain st Hr) as (Ht & _ & Hc).
  split; [exact Ht|]. split; [exact Hc|]. split; [|split].
  - intros h. simpl. now rewrite Ht.
  - unfold MediaCard.thumbnail. now rewrite Hplain.
  - unfold CardView.frame_indicator.
    unfold MediaCard.is_video_with_frames in Hplain. now rewrite Hplain.
Qed.

Lemma plain_card_never_cycles_witness :
  exists st,
    MediaCard.run Examples.beach (MediaCard.mount Examples.beach 1)
      [MediaCard.MouseEnter 3] = Some st /\
    MediaCard.isHovering st = true /\
    MediaCard.timers st = [] /\ MediaCard.currentFrame st = O.
Proof.
  exists (MediaCard.setIsHovering Examples.beach 3 true
            (MediaCard.mount Examples.beach 1)).
  split; [reflexivity|]. split; [reflexivity|].
  destruct (plain_card_never_cycles Examples.beach
              (MediaCard.setIsHovering Examples.beach 3 true
                 (MediaCard.mount Examples.beach 1)))
    as (Ht & Hc & _).
  - left. discriminate.
  - apply MediaCard.reachable_step
      with (MediaCard.mount Examples.beach 1) (MediaCard.MouseEnter 3);
      [apply MediaCard.reachable_mount | reflexivity].
  - auto.
Defined.

(** X2. No interval outlives a card: from every state a card can reach,
    video or not, hovered or not, the cleanup that runs when the card is
    removed leaves none of its intervals running. *)
Theorem unmount_clears_interval (file : MediaRecord) (st : MediaCard.State) :
  MediaCard.reachable file st ->
  MediaCard.timers (CardView.unmount st) = [].
Proof.
  intros Hr. unfold CardView.unmount, MediaCard.cleanup.
  destruct (MediaCard.is_video_with_frames file) eqn:Hv.
  - destruct (Hover.inv_reachable file Hv st Hr) as (_ & Hon & Hoff).
    destruct (MediaCard.isHovering st) eqn:Eh.
    + destruct (Hon eq_refl) as (h & Href & Htm). rewrite Href. simpl.
      rewrite Htm. unfold MediaCard.clearInterval. simpl.
      now rewrite Pos.eqb_refl.
    + destruct (Hoff eq_refl) as [Htm _].
      destruct (MediaCard.intervalRef st); simpl; rewrite Htm; reflexivity.
  - destruct (Idle.idle_reachable file Hv st Hr) as (Htm & Href & _).
    now rewrite Href.
Qed.

Lemma unmount_clears_interval_witness :
  MediaCard.timers
    (MediaCard.tick Examples.clip
       (MediaCard.setIsHovering Examples.clip 7 true
          (MediaCard.mount Examples.clip 1))) = [7%positive] /\
  MediaCard.timers
    (CardView.unmount
       (MediaCard.tick Examples.clip
          (MediaCard.setIsHovering Examples.clip 7 true
             (MediaCard.mount Examples.clip 1)))) = [].
Proof.
  split; [reflexivity|].
  apply (unmount_clears_interval Examples.clip).
  apply MediaCard.reachable_step
    with (MediaCard.setIsHovering Examples.clip 7 true
            (MediaCard.mount Examples.clip 1)) (MediaCard.Tick 7);
    [|reflexivity].
  apply MediaCard.reachable_step
    with (MediaCard.mount Examples.clip 1) (MediaCard.MouseEnter 7);
    [apply MediaCard.reachable_mount | reflexivity].
Defined.

(** X3. For a video with frames the selected thumbnail is, in every state
    the card can reach, an entry of [frames]: the index never leaves the
    sequence, so the thumbnail is never a missing value, and the card shows
    an image whenever that entry is a non-empty path. *)
Theorem video_thumbnail_is_a_frame (file : MediaRecord)
    (st : MediaCard.State) :
  type file = "video" -> frames (thumbnails file) <> [] ->
  MediaCard.reachable file st ->
  exists p,
    nth_error (frames (thumbnails file)) (MediaCard.currentFrame st) = Some p /\
    In p (frames (thumbnails file)) /\
    MediaCard.thumbnail file (MediaCard.currentFrame st) = JVal p /\
    (p <> "" ->
     MediaCard.render_thumbnail file (MediaCard.currentFrame st) =
       MediaCard.Img ("/" ++ p) (fileName file)).
Proof.
  intros Ht Hf Hr.
  assert (Hv : MediaCard.is_video_with_frames file = true)
    by (apply is_video_with_frames_true; auto).
  destruct (Hover.inv_reachable file Hv st Hr) as (Hlt & _ & _).
  destruct (nth_error (frames (thumbnails file)) (MediaCard.currentFrame st))
    as [p|] eqn:E.
  - exists p. split; [reflexivity|]. split; [now apply nth_error_In in E|].
    assert (Hth : MediaCard.thumbnail file (MediaCard.currentFrame st) = JVal p).
    { unfold MediaCard.thumbnail. now rewrite Hv, E. }
    split; [exact Hth|]. intros Hp. unfold MediaCard.render_thumbnail.
    rewrite Hth. now rewrite (proj2 (String.eqb_neq _ _) Hp).
  - apply nth_error_None in E. lia.
Qed.

Lemma video_thumbnail_is_a_frame_witness :
  exists p,
    nth_error (frames (thumbnails Examples.clip))
      (MediaCard.currentFrame (MediaCard.mount Examples.clip 1)) = Some p /\
    MediaCard.thumbnail Examples.clip
      (MediaCard.currentFrame (MediaCard.mount Examples.clip 1)) = JVal p.
Proof.
  destruct (video_thumbnail_is_a_frame Examples.clip
              (MediaCard.mount Examples.clip 1) eq_refl ltac:(discriminate)
              (MediaCard.reachable_mount _ 1)) as (p & Hn & _ & Hth & _).
  exists p. auto.
Defined.

(** X4. For a video with frames the frame indicator is shown exactly while
    the card is hovered, and its text is [k/n] where [n] is the number of
    frames and [k], between 1 and [n], is the frame index plus one. *)
Theorem frame_indicator_spec (file : MediaRecord) (st : MediaCard.State) :
  type file = "video" -> frames (thumbnails file) <> [] ->
  MediaCard.reachable file st ->
  let n := List.length (frames (thumbnails file)) in
  (MediaCard.isHovering st = false -> CardView.frame_indicator file st = None) /\
  (MediaCard.isHovering st = true ->
   exists k : nat,
     (1 <= k <= n)%nat /\ k = S (MediaCard.currentFrame st) /\
     CardView.frame_indicator file st =
       Some (Number_toString (Z.of_nat k) ++ "/" ++
             Number_toString (Z.of_nat n))).
Proof.
  intros Ht Hf Hr n.
  assert (Hv : MediaCard.is_video_with_frames file = true)
    by (apply is_video_with_frames_true; auto).
  destruct (Hover.inv_reachable file Hv st Hr) as (Hlt & _ & _).
  unfold CardView.frame_indicator.
  unfold MediaCard.is_video_with_frames in Hv. rewrite Hv. simpl.
  split; intros Eh; rewrite Eh; [reflexivity|].
  exists (S (MediaCard.currentFrame st)). fold n in Hlt.
  split; [lia|]. split; [reflexivity|].
  now rewrite Nat.add_1_r.
Qed.

Lemma frame_indicator_spec_witness :
  exists k : nat,
    (1 <= k <= 3)%nat /\
    k = S (MediaCard.currentFrame
             (MediaCard.setIsHovering Examples.clip 7 true
                (MediaCard.mount Examples.clip 1))) /\
    CardView.frame_indicator Examples.clip
      (MediaCard.setIsHovering Examples.clip 7 true
         (MediaCard.mount Examples.clip 1)) =
      Some (Number_toString (Z.of_nat k) ++ "/" ++ Number_toString 3).
Proof.
  apply (proj2 (frame_indicator_spec Examples.clip
                  (MediaCard.setIsHovering Examples.clip 7 true
                     (MediaCard.mount Examples.clip 1)) eq_refl
                  ltac:(discriminate)
                  (MediaCard.reachable_step Examples.clip
                     (MediaCard.mount Examples.clip 1)
                     (MediaCard.MouseEnter 7) _
                     (MediaCard.reachable_mount _ 1) eq_refl))).
  reflexivity.
Defined.


(** ** The duration overlay *)

Lemma append_not_empty (a b : string) (c : ascii) : a ++ String c b <> "".
Proof. destruct a; discriminate. Qed.

(** A duration that is not zero is never formatted as the empty string. *)
Lemma formatDuration_not_empty (s : Q) :
  ~ s == 0 -> MediaCard.formatDuration (JVal s) <> "".
Proof.
  intros Hs. unfold MediaCard.formatDuration.
  destruct (Qeq_bool s 0) eqn:E; [apply Qeq_bool_iff in E; contradiction|].
  cbv zeta. destruct (0 <? Qfloor (s / 3600)); apply append_not_empty.
Qed.

(** X5. The duration overlay of a card.  A record that is neither a video
    nor an audio file has none, and neither has one whose duration is [null]
    or missing.  A video or audio record whose duration is the number zero
    leaves that number in the tree, where it is rendered as text, instead of
    an overlay.  For every other duration the overlay is shown and its text
    is the formatted duration, which is not empty. *)
Theorem duration_overlay_spec (file : MediaRecord) :
  (type file <> "video" -> type file <> "audio" ->
     CardView.duration_overlay file = CardView.Nothing) /\
  (duration (metadata file) = JNull \/ duration (metadata file) = JUndefined ->
     CardView.duration_overlay file = CardView.Nothing) /\
  (forall s, (type file = "video" \/ type file = "audio") ->
     duration (metadata file) = JVal s ->
     (s == 0 -> CardView.duration_overlay file = CardView.NumberText s) /\
     (~ s == 0 ->
      CardView.duration_overlay file =
        CardView.Element (MediaCard.formatDuration (JVal s)) /\
      MediaCard.formatDuration (JVal s) <> "")).
Proof.
  unfold CardView.duration_overlay. split; [|split].
  - intros Hv Ha. apply String.eqb_neq in Hv, Ha. now rewrite Hv, Ha.
  - intros [-> | ->]; destruct (_ || _); reflexivity.
  - intros s Ht ->.
    assert (E : (type file =? "video")%string || (type file =? "audio")%string
                = true).
    { apply orb_true_iff. rewrite !String.eqb_eq. exact Ht. }
    rewrite E. split.
    + intros Hs. apply Qeq_bool_iff in Hs. now rewrite Hs.
    + intros Hs. split; [|now apply formatDuration_not_empty].
      destruct (Qeq_bool s 0) eqn:Eq; [|reflexivity].
      apply Qeq_bool_iff in Eq. contradiction.
Qed.

Lemma duration_overlay_spec_witness :
  CardView.duration_overlay
    {| id := "v"; type := "video"; fileName := "v.mp4";
       relativePath := "v.mp4";
       metadata := {| creationDate := JNull; resolution := JNull;
                      duration := JVal 0%Q; fileSize := 10 |};
       thumbnails := {| main := JNull; frames := [] |};
       googleDrive := JNull |} = CardView.NumberText 0%Q /\
  CardView.duration_overlay Examples.beach = CardView.Nothing.
Proof.
  split.
  - apply (proj2 (proj2 (duration_overlay_spec _)) 0%Q);
      [left; reflexivity | reflexivity | reflexivity].
  - apply (proj1 (duration_overlay_spec Examples.beach)); discriminate.
Defined.

(** ** More on formatFileSize *)

Lemma formatFileSize_positive (b : Z) :
  1 <= b ->
  MediaCard.formatFileSize b =
    Number_toString_hundredths
      (round_div (100 * b) (1024 ^ MediaCard.unit_index b))
    ++ " " ++ MediaCard.unit_name (MediaCard.unit_index b).
Proof.
  intros Hb. destruct (unit_index_spec b Hb) as (Hi & _ & _).
  unfold MediaCard.formatFileSize.
  replace (b =? 0) with false by (symmetry; apply Z.eqb_neq; lia).
  replace (b <? 0) with false by (symmetry; apply Z.ltb_ge; lia).
  cbv zeta. unfold MediaCard.k at 1.
  rewrite Math_round_hundredths by (apply Z.pow_pos_nonneg; lia).
  reflexivity.
Qed.

(** X6. A size of 1 to 1023 bytes is printed exactly: the number of bytes,
    without a fraction, followed by the unit B. *)
Theorem formatFileSize_bytes (b : Z) :
  1 <= b < 1024 ->
  MediaCard.formatFileSize b = Number_toString b ++ " B".
Proof.
  intros [Hlo Hhi].
  destruct (unit_index_spec b Hlo) as (Hi & _ & _).
  pose proof (unit_index_lt b 1 Hlo ltac:(lia) Hhi) as Hi1.
  rewrite formatFileSize_positive by exact Hlo.
  replace (MediaCard.unit_index b) with 0 by lia.
  unfold round_div, Number_toString_hundredths. cbv zeta.
  change (1024 ^ 0) with 1.
  replace ((2 * (100 * b) + 1) / (2 * 1)) with (100 * b)
    by (Z.div_mod_to_equations; lia).
  replace (100 * b mod 100) with 0 by (Z.div_mod_to_equations; lia).
  replace (100 * b / 100) with b by (Z.div_mod_to_equations; lia).
  simpl (0 =? 0). cbv iota. now rewrite append_nil_r.
Qed.

Lemma formatFileSize_bytes_witness :
  MediaCard.formatFileSize 1023 = Number_toString 1023 ++ " B".
Proof. apply (formatFileSize_bytes 1023). lia. Defined.

(** X7. Just below the next unit the number printed is 1024 with the
    smaller unit: for a size in the range of KB, MB or GB that lies within
    one part in 204800 of the next power of 1024, the result is [1024]
    followed by the unit of the current power, not [1] followed by the
    next unit. *)
Theorem formatFileSize_rounds_to_1024 (b : Z) :
  1 <= b ->
  1 <= MediaCard.unit_index b <= 3 ->
  204799 * 1024 ^ MediaCard.unit_index b <= 200 * b ->
  MediaCard.formatFileSize b =
    "1024 " ++ MediaCard.unit_name (MediaCard.unit_index b) /\
  In (MediaCard.unit_name (MediaCard.unit_index b)) ["KB"; "MB"; "GB"].
Proof.
  intros Hb Hi Hnear.
  destruct (unit_index_spec b Hb) as (_ & Hlo & Hhi).
  set (i := MediaCard.unit_index b) in *.
  assert (Hp : 0 < 1024 ^ i) by (apply Z.pow_pos_nonneg; lia).
  replace (1024 ^ (i + 1)) with (1024 * 1024 ^ i) in Hhi
    by (rewrite Z.pow_add_r by lia; lia).
  split.
  - rewrite formatFileSize_positive by exact Hb. fold i.
    assert (E : round_div (100 * b) (1024 ^ i) = 102400).
    { unfold round_div. set (p := 1024 ^ i) in *.
      apply Z.le_antisymm.
      - apply Z.lt_succ_r. apply Z.div_lt_upper_bound; lia.
      - apply Z.div_le_lower_bound; lia. }
    rewrite E. reflexivity.
  - assert (Hc : i = 1 \/ i = 2 \/ i = 3) by lia.
    destruct Hc as [-> | [-> | ->]]; simpl; auto.
Qed.

Lemma formatFileSize_rounds_to_1024_witness :
  MediaCard.formatFileSize 1048575 = "1024 KB".
Proof.
  apply (formatFileSize_rounds_to_1024 1048575);
    [lia | vm_compute; split; discriminate | vm_compute; discriminate].
Defined.

(** ** More on filtering *)

Lemma filter_comm {A : Type} (f g : A -> bool) (l : list A) :
  filter f (filter g l) = filter g (filter f l).
Proof.
  induction l as [|x l IH]; simpl; [reflexivity|].
  destruct (f x) eqn:Ef, (g x) eqn:Eg; simpl; rewrite ?Ef, ?Eg, IH; reflexivity.
Qed.

Lemma filter_permutation {A : Type} (f : A -> bool) (l l' : list A) :
  Permutation l l' -> Permutation (filter f l) (filter f l').
Proof.
  induction 1 as [|x l l' _ IH|x y l|l l' l'' _ IH1 _ IH2]; simpl.
  - constructor.
  - destruct (f x); [now constructor | exact IH].
  - destruct (f x), (f y); try reflexivity. apply perm_swap.
  - now transitivity (filter f l').
Qed.

Lemma length_filter_le {A : Type} (f : A -> bool) (l : list A) :
  (List.length (filter f l) <= List.length l)%nat.
Proof.
  induction l as [|x l IH]; simpl; [lia|]. destruct (f x); simpl; lia.
Qed.

Lemma append_empty (a b : string) : a ++ b = "" -> a = "" /\ b = "".
Proof. destruct a; simpl; [auto | discriminate]. Qed.

(** X8. The two filters commute and compose as an intersection: applying
    the search to the files of the selected type gives the same list as
    selecting the type among the files found by the search, and a file is
    shown under a type filter and a search text exactly when it is shown
    under the type filter alone and under the search text alone. *)
Theorem filters_commute `{Host} (doc : IndexDocument)
    (filterType searchQuery : string) (file : MediaRecord) :
  App.filter_by_search searchQuery
    (App.filter_by_type filterType (files doc)) =
  App.filter_by_type filterType
    (App.filter_by_search searchQuery (files doc)) /\
  (displayed file
     (App.displayed_groups (Some doc) filterType searchQuery) <->
   displayed file (App.displayed_groups (Some doc) filterType "") /\
   displayed file (App.displayed_groups (Some doc) "all" searchQuery)).
Proof.
  split.
  - unfold App.filter_by_search, App.filter_by_type.
    destruct (negb (searchQuery =? "")%string),
             (negb (filterType =? "all")%string); try reflexivity.
    apply filter_comm.
  - rewrite !Filters.displayed_iff. unfold App.filtered_files.
    rewrite !Filters.filter_by_search_In, !Filters.filter_by_type_In. tauto.
Qed.

Lemma substring_of_trans (a b c : string) :
  substring_of a b -> substring_of b c -> substring_of a c.
Proof.
  intros (p & q & ->) (p' & q' & ->). exists (p' ++ p), (q ++ q').
  now rewrite !append_assoc.
Qed.

(** X9. Narrowing the search.  Let a search text contain a shorter one.
    If lower-casing keeps that containment for these two texts (the
    lower-cased longer text contains the lower-cased shorter one), then
    every file shown for the longer text is also shown for the shorter one,
    under the same type filter. *)
Theorem search_narrows `{Host} (doc : IndexDocument)
    (filterType pre searchQuery post : string) (file : MediaRecord) :
  substring_of (toLowerCase searchQuery)
    (toLowerCase (pre ++ searchQuery ++ post)) ->
  displayed file
    (App.displayed_groups (Some doc) filterType (pre ++ searchQuery ++ post)) ->
  displayed file (App.displayed_groups (Some doc) filterType searchQuery).
Proof.
  intros Hlower. rewrite !Filters.displayed_iff. unfold App.filtered_files.
  rewrite !Filters.filter_by_search_In. intros (Hin & Hm).
  split; [exact Hin|].
  destruct Hm as [E | Hm].
  - apply append_empty in E. destruct E as [_ E].
    apply append_empty in E. tauto.
  - right. destruct Hm as [Hm | Hm]; [left | right];
      now apply substring_of_trans with (toLowerCase (pre ++ searchQuery ++ post)).
Qed.

Lemma search_narrows_witness :
  displayed Examples.beach
    (@App.displayed_groups Examples.ascii_host (Some Examples.sample)
       "image" "EACH").
Proof.
  apply (@search_narrows Examples.ascii_host Examples.sample "image"
           "b" "EACH" ".J" Examples.beach).
  - exists "b", ".j". reflexivity.
  - apply Filters.displayed_iff. left. reflexivity.
Defined.

(** X10. The number in the header never exceeds the number of files of
    the document, and is that number when the type filter is [all] and the
    search text is empty. *)
Theorem totalFiles_bounds `{Host} (doc : IndexDocument)
    (filterType searchQuery : string) :
  0 <= App.totalFiles doc filterType searchQuery
    <= Z.of_nat (List.length (files doc)) /\
  App.totalFiles doc "all" "" = Z.of_nat (List.length (files doc)).
Proof.
  assert (Ht : forall ft q,
             App.totalFiles doc ft q =
             Z.of_nat (List.length (App.filtered_files doc ft q))).
  { intros ft q. unfold App.totalFiles, App.Object_values.
    rewrite fold_sum_lengths. simpl. f_equal. apply Permutation_length.
    apply Filters.displayed_files_perm. }
  split; [|now rewrite Ht].
  rewrite Ht. split; [lia|]. apply Nat2Z.inj_le.
  unfold App.filtered_files, App.filter_by_search, App.filter_by_type.
  destruct (negb (searchQuery =? "")%string),
           (negb (filterType =? "all")%string);
    repeat (etransitivity; [apply length_filter_le|]); reflexivity.
Qed.

(** ** More on grouping *)

(** X11. The reducer that builds the groups: the file is appended to the
    group of its day, a group that does not exist yet is created holding
    that file alone, and the groups of all other days are left as they
    were. *)
Theorem add_to_group_spec `{Host} (acc : App.Obj (list MediaRecord))
    (file : MediaRecord) :
  (App.get acc (App.dateKey file) = None ->
     App.get (App.add_to_group acc file) (App.dateKey file) = Some [file] /\
     map fst (App.add_to_group acc file) =
       (map fst acc ++ [App.dateKey file])%list) /\
  (forall group, App.get acc (App.dateKey file) = Some group ->
     App.get (App.add_to_group acc file) (App.dateKey file) =
       Some (group ++ [file])%list /\
     map fst (App.add_to_group acc file) = map fst acc) /\
  (forall key, key <> App.dateKey file ->
     App.get (App.add_to_group acc file) key = App.get acc key).
Proof.
  split; [|split].
  - intros E. rewrite Groups.get_add_same, Groups.keys_add.
    unfold App.group_of. now rewrite E.
  - intros group E. rewrite Groups.get_add_same, Groups.keys_add.
    unfold App.group_of. now rewrite E.
  - intros key Hne. now apply Groups.get_add_other.
Qed.

(** X12. Grouping loses and duplicates nothing: the rendered groups, read
    one after the other, hold the files that pass the filters, each as many
    times as it occurs in the document. *)
Theorem groups_partition_files `{Host} (doc : IndexDocument)
    (filterType searchQuery : string) :
  Permutation
    (List.concat
       (map snd (App.displayed_groups (Some doc) filterType searchQuery)))
    (App.filtered_files doc filterType searchQuery).
Proof. apply Filters.displayed_files_perm. Qed.

(** X13. Two files are in the same group exactly when their creation
    dates are both valid and fall on the same UTC day, or are both not
    valid. *)
Theorem same_group_iff_same_day `{Host} (file file' : MediaRecord) :
  App.dateKey file = App.dateKey file' <->
  match new_Date (creationDate (metadata file)),
        new_Date (creationDate (metadata file')) with
  | Some t, Some t' => Day t = Day t'
  | None, None => True
  | _, _ => False
  end.
Proof.
  rewrite !Keys.dateKey_spec.
  destruct (new_Date (creationDate (metadata file))) as [t|] eqn:E;
    destruct (new_Date (creationDate (metadata file'))) as [t'|] eqn:E'.
  - apply Keys.new_Date_range in E, E'.
    split; [|now intros ->].
    apply date_string_inj; now apply Keys.Day_in_range.
  - split; [|tauto]. intros Hk. now apply Keys.date_string_not_unknown in Hk.
  - split; [|tauto]. intros Hk. symmetry in Hk.
    now apply Keys.date_string_not_unknown in Hk.
  - tauto.
Qed.

(** ** The comparator and the order of the groups *)

(** X14. On the names of two different groups the comparator is
    consistent: its result is never [NaN] and never zero, and exchanging
    the arguments exchanges the sign. *)
Theorem compare_keys_consistent `{Host} (file file' : MediaRecord) :
  App.dateKey file <> App.dateKey file' ->
  exists v w,
    App.compare_keys (App.dateKey file) (App.dateKey file') = Some v /\
    App.compare_keys (App.dateKey file') (App.dateKey file) = Some w /\
    v <> 0 /\ (0 < v <-> w < 0).
Proof.
  intros Hne.
  destruct (Keys.dateKey_group_key file) as [Ea | (da & Ha & Ea)];
    destruct (Keys.dateKey_group_key file') as [Eb | (db & Hb & Eb)];
    rewrite Ea, Eb in *; unfold App.compare_keys.
  - contradiction.
  - exists 1, (-1).
    rewrite (proj2 (String.eqb_neq _ _) (Keys.date_string_not_unknown db)).
    cbn. repeat split; lia.
  - exists (-1), 1.
    rewrite (proj2 (String.eqb_neq _ _) (Keys.date_string_not_unknown da)).
    cbn. repeat split; lia.
  - exists ((db - da) * msPerDay), ((da - db) * msPerDay).
    rewrite (proj2 (String.eqb_neq _ _) (Keys.date_string_not_unknown da)).
    rewrite (proj2 (String.eqb_neq _ _) (Keys.date_string_not_unknown db)).
    rewrite !Keys.new_Date_date_string by assumption.
    rewrite <- !Z.mul_sub_distr_r.
    assert (da <> db) by congruence.
    unfold msPerDay. repeat split; lia.
Qed.

Lemma compare_keys_consistent_witness :
  exists v w,
    @App.compare_keys Examples.ascii_host
      (@App.dateKey Examples.ascii_host Examples.beach)
      (@App.dateKey Examples.ascii_host Examples.clip) = Some v /\
    @App.compare_keys Examples.ascii_host
      (@App.dateKey Examples.ascii_host Examples.clip)
      (@App.dateKey Examples.ascii_host Examples.beach) = Some w /\
    v <> 0 /\ (0 < v <-> w < 0).
Proof.
  apply (@compare_keys_consistent Examples.ascii_host Examples.beach
           Examples.clip).
  vm_compute. discriminate.
Defined.

Lemma strictly_decreasing_unique {A : Type} (rank : A -> Z) (l l' : list A) :
  StronglySorted (fun a b => rank a > rank b) l ->
  StronglySorted (fun a b => rank a > rank b) l' ->
  (forall x, In x l <-> In x l') -> l = l'.
Proof.
  revert l'. induction l as [|a l IH]; intros l' Hs Hs' Hin.
  - destruct l' as [|b l']; [reflexivity|].
    exfalso. apply (Hin b). now left.
  - destruct l' as [|b l']; [exfalso; apply (Hin a); now left|].
    apply StronglySorted_inv in Hs, Hs'.
    destruct Hs as [Hs Ha], Hs' as [Hs' Hb].
    rewrite Forall_forall in Ha, Hb.
    assert (E : a = b).
    { destruct (proj1 (Hin a) (or_introl eq_refl)) as [E | Hal']; [now symmetry|].
      destruct (proj2 (Hin b) (or_introl eq_refl)) as [E | Hbl]; [exact E|].
      specialize (Ha b Hbl). specialize (Hb a Hal'). lia. }
    subst b. f_equal. apply IH; [exact Hs | exact Hs'|].
    intros x. split; intros Hx.
    + destruct (proj1 (Hin x) (or_intror Hx)) as [E | Hx']; [|exact Hx'].
      subst x. specialize (Ha a Hx). lia.
    + destruct (proj2 (Hin x) (or_intror Hx)) as [E | Hx']; [|exact Hx'].
      subst x. specialize (Hb a Hx). lia.
Qed.

Lemma filtered_files_permutation `{Host} (doc doc' : IndexDocument)
    (filterType searchQuery : string) :
  Permutation (files doc) (files doc') ->
  Permutation (App.filtered_files doc filterType searchQuery)
              (App.filtered_files doc' filterType searchQuery).
Proof.
  intros Hp. unfold App.filtered_files, App.filter_by_search,
    App.filter_by_type.
  destruct (negb (searchQuery =? "")%string),
           (negb (filterType =? "all")%string);
    repeat apply filter_permutation; exact Hp.
Qed.

Lemma sorted_keys_permutation `{Host} (l l' : list MediaRecord) :
  Permutation l l' -> sorted_keys l = sorted_keys l'.
Proof.
  intros Hp.
  destruct (Groups.sorted_keys_spec l) as (_ & _ & Hk & Hs).
  destruct (Groups.sorted_keys_spec l') as (_ & _ & Hk' & Hs').
  apply (strictly_decreasing_unique key_rank); [exact Hs | exact Hs'|].
  intros key. rewrite Hk, Hk'.
  split; intros (f & Hf & E); exists f; split; try exact E.
  - now apply (Permutation_in _ Hp).
  - now apply (Permutation_in _ (Permutation_sym Hp)).
Qed.

(** X15. The order of the files in the document does not matter for the
    groups: two documents whose [files] are permutations of each other
    render the same group names in the same order, and each group holds the
    same files up to their order. *)
Theorem groups_independent_of_file_order `{Host} (doc doc' : IndexDocument)
    (filterType searchQuery : string) :
  Permutation (files doc) (files doc') ->
  Forall2 (fun g g' => fst g = fst g' /\ Permutation (snd g) (snd g'))
    (App.displayed_groups (Some doc) filterType searchQuery)
    (App.displayed_groups (Some doc') filterType searchQuery).
Proof.
  intros Hp. rewrite !Groups.displayed_groups_eq. cbv zeta.
  pose proof (filtered_files_permutation doc doc' filterType searchQuery Hp)
    as Hf.
  rewrite <- (sorted_keys_permutation _ _ Hf).
  induction (sorted_keys (App.filtered_files doc filterType searchQuery))
    as [|key keys IH]; simpl; constructor; [|exact IH].
  simpl. split; [reflexivity|]. now apply filter_permutation.
Qed.

Lemma groups_independent_of_file_order_witness :
  Forall2 (fun g g' => fst g = fst g' /\ Permutation (snd g) (snd g'))
    (@App.displayed_groups Examples.ascii_host (Some Examples.sample) "all" "")
    (@App.displayed_groups Examples.ascii_host
       (Some {| doc_metadata := JNull;
                files := rev (files Examples.sample) |}) "all" "").
Proof.
  apply (@groups_independent_of_file_order Examples.ascii_host).
  apply Permutation_rev.
Defined.

(** ** The content below the header *)

Lemma Object_keys_grouped `{Host} (doc : IndexDocument)
    (filterType searchQuery : string) :
  App.Object_keys (App.groupedByDate (Some doc) filterType searchQuery) =
  sorted_keys (App.filtered_files doc filterType searchQuery).
Proof.
  unfold App.Object_keys.
  change (App.Object_entries
            (App.groupedByDate (Some doc) filterType searchQuery))
    with (App.displayed_groups (Some doc) filterType searchQuery).
  rewrite Groups.displayed_groups_eq. cbv zeta.
  rewrite map_map. simpl. apply map_id.
Qed.

(** The main area in terms of the sorted group names. *)
Lemma main_content_eq `{Host} (doc : IndexDocument)
    (filterType searchQuery : string) :
  let filtered := App.filtered_files doc filterType searchQuery in
  AppView.main_content doc filterType searchQuery =
    if (List.length (sorted_keys filtered) =? 0)%nat then AppView.NoFilesFound
    else
      AppView.DateGroups
        (map (fun key =>
                (AppView.group_heading key,
                 AppView.count_label (files_of_day key filtered),
                 files_of_day key filtered))
           (sorted_keys filtered)).
Proof.
  intros filtered. unfold AppView.main_content. cbv zeta.
  rewrite Object_keys_grouped. fold filtered.
  change (App.Object_entries
            (App.groupedByDate (Some doc) filterType searchQuery))
    with (App.displayed_groups (Some doc) filterType searchQuery).
  rewrite Groups.displayed_groups_eq. cbv zeta. fold filtered.
  now rewrite map_map.
Qed.

(** X16. Once a document is loaded, the text that no files were found is
    shown exactly when no file of the document passes the filters;
    otherwise the groups are rendered. *)
Theorem no_files_found_iff `{Host} (doc : IndexDocument)
    (filterType searchQuery : string) :
  AppView.main_content doc filterType searchQuery = AppView.NoFilesFound <->
  App.filtered_files doc filterType searchQuery = [].
Proof.
  rewrite main_content_eq. cbv zeta.
  destruct (Groups.sorted_keys_spec
              (App.filtered_files doc filterType searchQuery))
    as (_ & _ & Hk & _).
  destruct (sorted_keys (App.filtered_files doc filterType searchQuery))
    as [|key keys] eqn:Ek; simpl.
  - split; [|reflexivity]. intros _.
    destruct (App.filtered_files doc filterType searchQuery) as [|f l];
      [reflexivity|].
    exfalso. apply (Hk (App.dateKey f)). exists f. split; [now left | reflexivity].
  - split; [discriminate|]. intros E. exfalso.
    destruct (proj1 (Hk key) (or_introl eq_refl)) as (f & Hf & _).
    rewrite E in Hf. contradiction.
Qed.

(** X17. Every rendered group has at least one file, and its heading is
    built from the day its files share: the group of the files without a
    valid date has the fixed heading, and every other group hands to the
    date formatter the UTC midnight of the day on which each of its files
    was created, never an invalid date. *)
Theorem group_headings `{Host} (doc : IndexDocument)
    (filterType searchQuery : string)
    (groups : list (AppView.Heading * string * list MediaRecord))
    (heading : AppView.Heading) (label : string) (group : list MediaRecord) :
  AppView.main_content doc filterType searchQuery = AppView.DateGroups groups ->
  In (heading, label, group) groups ->
  (1 <= List.length group)%nat /\
  label = AppView.count_label group /\
  ((heading = AppView.UnknownDateHeading /\
    forall file, In file group -> no_valid_date file = true) \/
   (exists d,
      heading = AppView.LocaleDate (Some (d * msPerDay)) /\
      forall file, In file group ->
        exists t, new_Date (creationDate (metadata file)) = Some t /\
                  Day t = d)).
Proof.
  rewrite main_content_eq. cbv zeta.
  set (filtered := App.filtered_files doc filterType searchQuery).
  destruct (Groups.sorted_keys_spec filtered) as (_ & HP & Hk & _).
  destruct (List.length (sorted_keys filtered) =? 0)%nat; [discriminate|].
  intros [= <-] Hin.
  apply in_map_iff in Hin. destruct Hin as (key & [= <- <- <-] & Hkey).
  split; [|split; [reflexivity|]].
  - apply Hk in Hkey. destruct Hkey as (f & Hf & E).
    assert (Hin : In f (files_of_day key filtered))
      by (apply Filters.files_of_day_In; auto).
    destruct (files_of_day key filtered); [contradiction | simpl; lia].
  - rewrite Forall_forall in HP.
    destruct (HP key Hkey) as [-> | (d & Hd & ->)].
    + left. split; [reflexivity|]. intros f Hf.
      apply Filters.files_of_day_In in Hf. now apply Order.dateKey_unknown.
    + right. exists d. split.
      * unfold AppView.group_heading.
        rewrite (proj2 (String.eqb_neq _ _) (Keys.date_string_not_unknown d)).
        now rewrite Keys.new_Date_date_string.
      * intros f Hf. apply Filters.files_of_day_In in Hf.
        destruct Hf as [_ E]. rewrite Keys.dateKey_spec in E.
        destruct (new_Date (creationDate (metadata f))) as [t|] eqn:Et.
        -- exists t. split; [reflexivity|].
           apply date_string_inj; [|exact Hd | exact E].
           apply Keys.Day_in_range. now apply Keys.new_Date_range in Et.
        -- symmetry in E. now apply Keys.date_string_not_unknown in E.
Qed.

Lemma group_headings_witness :
  (1 <= List.length [Examples.clip])%nat /\
  "1 file" = AppView.count_label [Examples.clip] /\
  ((AppView.LocaleDate (Some (19724 * msPerDay)) = AppView.UnknownDateHeading /\
    forall file, In file [Examples.clip] ->
      @no_valid_date Examples.ascii_host file = true) \/
   (exists d,
      AppView.LocaleDate (Some (19724 * msPerDay)) =
        AppView.LocaleDate (Some (d * msPerDay)) /\
      forall file, In file [Examples.clip] ->
        exists t,
          @new_Date Examples.ascii_host (creationDate (metadata file))
            = Some t /\ Day t = d)).
Proof.
  apply (@group_headings Examples.ascii_host Examples.sample "all" ""
           [(AppView.LocaleDate (Some (19724 * msPerDay)), "1 file",
             [Examples.clip]);
            (AppView.LocaleDate (Some (19478 * msPerDay)), "2 files",
             [Examples.beach; Examples.sunset]);
            (AppView.UnknownDateHeading, "1 file", [Examples.memo])]).
  - vm_compute. reflexivity.
  - left. reflexivity.
Defined.
